(** * proxium.py: retrieval through a public web proxy, with a blacklist of
    relay servers kept in [bad_servers.json].

    The development embeds [load_bad_servers], [save_bad_servers] and
    [fetch_content_through_proxy] of [src/proxium.py].  The browser and the
    remote site are an explicit [world]; the backing file and the sequence of
    browser and store actions are the [state] that the Python code threads
    implicitly.  Exceptions are values of [res]. *)

From Stdlib Require Import String Ascii List ZArith Lia Bool.
From stdpp Require Import gmap strings list fin_maps.

Set Warnings "-register-all".
Local Open Scope string_scope.

(** ** Python values *)

(** What [json.load] can return.  Floating point numbers are left out. *)
Inductive json :=
| JNull
| JBool (b : bool)
| JInt (n : Z)
| JStr (s : string)
| JList (l : list json)
| JDict (m : gmap string json).

(** A module-level object that the verification condition names: a [str], or
    a [set] of [str] written with braces. *)
Inductive pyobj :=
| PyStr (s : string)
| PySet (elems : list string).

Inductive exn :=
| FileNotFoundError
| PermissionError
| IsADirectoryError
| UnicodeDecodeError
| JSONDecodeError
| RecursionError
| TypeError
| WebDriverException
| TimeoutException
| NoSuchElementException
| StaleElementReferenceException.

Inductive res (A : Type) :=
| Val (a : A)
| Exc (e : exn).
Arguments Val {A} a.
Arguments Exc {A} e.

(** ** Operators *)

(** [needle in hay] for two [str]: some suffix of [hay] starts with [needle]. *)
Fixpoint contains (needle hay : string) : bool :=
  if String.prefix needle hay then true
  else match hay with
       | EmptyString => false
       | String _ rest => contains needle rest
       end.

(** Truth value of a [str]: [if content:]. *)
Definition truthy (s : string) : bool :=
  match s with
  | EmptyString => false
  | String _ _ => true
  end.

(** [left in right] where [right] is a [str]: a left operand that is not a
    [str] raises [TypeError]. *)
Definition py_in_str (left : pyobj) (right : string) : res bool :=
  match left with
  | PyStr s => Val (contains s right)
  | PySet _ => Exc TypeError
  end.

(** [a or b], with [b] evaluated only when [a] is false. *)
Definition py_or (a b : res bool) : res bool :=
  match a with
  | Val true => Val true
  | Val false => b
  | Exc e => Exc e
  end.

Definition json_eq_str (key : string) (v : json) : bool :=
  match v with
  | JStr s => String.eqb key s
  | _ => false
  end.

(** [key in container] for a [str] key and a decoded JSON container. *)
Definition py_in_json (key : string) (container : json) : res bool :=
  match container with
  | JDict m => Val (bool_decide (is_Some (m !! key)))
  | JList l => Val (existsb (json_eq_str key) l)
  | JStr s => Val (contains key s)
  | JNull | JBool _ | JInt _ => Exc TypeError
  end.

(** [container[key] = 1] for a [str] key. *)
Definition py_setitem (container : json) (key : string) : res json :=
  match container with
  | JDict m => Val (JDict (<[key := JInt 1]> m))
  | _ => Exc TypeError
  end.

(** ** The backing file *)

(** The bytes of a readable file, by what [json.load] makes of them when the
    file is open in text mode. *)
Inductive decoded :=
| NotText           (* bytes that do not decode as text *)
| NotJson           (* text that is not a JSON document, the empty text included *)
| TooDeep           (* a document nested beyond the recursion limit *)
| Json (v : json).  (* a document *)

(** What is at [bad_servers_path]. *)
Inductive file :=
| Absent
| Directory         (* a directory: it exists, and opening it is refused *)
| Locked            (* a file that may not be opened for reading *)
| Holds (d : decoded).

Record store := Store {
  backing : file;        (* bad_servers.json *)
  writable : bool        (* a file at the path may be opened for writing *)
}.

(** ** The browser and the remote site *)

Inductive reply :=
| Broken (e : exn)            (* an interaction between click and page_source raises *)
| Rendered (text : string).   (* soup.get_text() *)

(** One [.option] element of the dropdown.  Every option is taken to carry a
    [data-value] attribute, so that reading it gives a [str] or raises. *)
Record option_elem := OptionElem {
  data_value : res string;             (* elem.get_attribute('data-value') *)
  after_submit : string -> reply       (* by the URL typed into the form *)
}.

Inductive page :=
| GetFails (e : exn)                                   (* driver.get raises *)
| FormMissing (consent : bool) (e : exn)               (* the form wait or the dropdown raises *)
| Loaded (consent : bool) (server_elements : list option_elem).

Record world := World {
  chrome : option exn;         (* webdriver.Chrome(...) raises, or starts *)
  proxyium : nat -> page       (* what attempt number [n] finds *)
}.

(** ** Observable actions *)

Inductive event :=
| Launch
| Get
| Consent
| Found (n : nat)
| Skip (server_code : string)
| Select (server_code : string)
| Rejected (server_code : string)
| Save (bad_servers : json)
| Quit.

Record state := State {
  fs : store;
  trace : list event
}.

Definition boot (st : store) : state := State st [].

(** ** A state and exception monad *)

Definition M (A : Type) : Type := state -> res A * state.

Definition ret {A} (a : A) : M A := fun σ => (Val a, σ).
Definition raise {A} (e : exn) : M A := fun σ => (Exc e, σ).

Definition bind {A B} (m : M A) (k : A -> M B) : M B :=
  fun σ => match m σ with
           | (Val a, σ1) => k a σ1
           | (Exc e, σ1) => (Exc e, σ1)
           end.

Definition lift {A} (r : res A) : M A := fun σ => (r, σ).

Definition emit (e : event) : M unit :=
  fun σ => (Val tt, State (fs σ) (trace σ ++ [e])).

(** [try: m  except: h] *)
Definition try_except {A} (m : M A) (h : exn -> M A) : M A :=
  fun σ => match m σ with
           | (Val a, σ1) => (Val a, σ1)
           | (Exc e, σ1) => h e σ1
           end.

(** [try: m  finally: cleanup] *)
Definition try_finally {A} (m : M A) (cleanup : M unit) : M A :=
  fun σ => match m σ with
           | (r, σ1) => match cleanup σ1 with
                        | (Val _, σ2) => (r, σ2)
                        | (Exc e, σ2) => (Exc e, σ2)
                        end
           end.

Notation "'let!' x ':=' m 'in' k" := (bind m (fun x => k))
  (at level 10, x name, m at level 100, k at level 200).

(** ** The blacklist store *)

Definition path_exists : M bool :=
  fun σ => (Val (match backing (fs σ) with Absent => false | _ => true end), σ).

(** [with open(bad_servers_path, 'r') as file: json.load(file)] *)
Definition open_and_json_load : M json :=
  fun σ => match backing (fs σ) with
           | Absent => (Exc FileNotFoundError, σ)
           | Directory => (Exc IsADirectoryError, σ)
           | Locked => (Exc PermissionError, σ)
           | Holds NotText => (Exc UnicodeDecodeError, σ)
           | Holds NotJson => (Exc JSONDecodeError, σ)
           | Holds TooDeep => (Exc RecursionError, σ)
           | Holds (Json v) => (Val v, σ)
           end.

Definition load_bad_servers : M json :=
  try_except
    (let! present := path_exists in
     if present then open_and_json_load else ret (JDict ∅))
    (fun e => match e with
              | FileNotFoundError => ret (JDict ∅)
              | _ => raise e
              end).

(** [with open(bad_servers_path, 'w') as file: json.dump(bad_servers, file)]:
    a directory is never opened; a file that may not be read stays so,
    whatever is written to it. *)
Definition save_bad_servers (bad_servers : json) : M unit :=
  fun σ => match backing (fs σ) with
           | Directory => (Exc IsADirectoryError, σ)
           | Locked =>
               if writable (fs σ)
               then (Val tt, State (Store Locked true)
                                     (trace σ ++ [Save bad_servers]))
               else (Exc PermissionError, σ)
           | Absent | Holds _ =>
               if writable (fs σ)
               then (Val tt, State (Store (Holds (Json bad_servers)) true)
                                     (trace σ ++ [Save bad_servers]))
               else (Exc PermissionError, σ)
           end.

(** ** The retrieval call *)

(** The two local variables the loops assign. *)
Record locals := Locals {
  bad_servers : json;
  content : string
}.

Section Retrieval.

(** [DATA_VERIFIER] is a module-level name, read each time the condition is
    evaluated; the call is modelled for any object bound to it.  The object
    the module itself binds is [DATA_VERIFIER_literal] below. *)
Variable DATA_VERIFIER : pyobj.
Variable w : world.

Definition initialize_webdriver : M unit :=
  match chrome w with
  | Some e => raise e
  | None => emit Launch
  end.

(** The [try] around the consent button: any exception is only logged. *)
Definition click_consent (consent : bool) : M unit :=
  try_except
    (if consent then emit Consent else raise TimeoutException)
    (fun _ => ret tt).

(** [DATA_VERIFIER in current_content or DATA_VERIFIER in current_content] *)
Definition verification_condition (current_content : string) : res bool :=
  py_or (py_in_str DATA_VERIFIER current_content)
        (py_in_str DATA_VERIFIER current_content).

Definition submit (elem : option_elem) (target_url : string) : M string :=
  match after_submit elem target_url with
  | Broken e => raise e
  | Rendered text => ret text
  end.

(** [for elem in server_elements: ...]; returning early is [break]. *)
Fixpoint for_elem (target_url : string) (server_elements : list option_elem)
    (l : locals) : M locals :=
  match server_elements with
  | [] => ret l
  | elem :: rest =>
      let! server_code := lift (data_value elem) in
      let! known := lift (py_in_json server_code (bad_servers l)) in
      if (known : bool) then
        let! _ := emit (Skip server_code) in
        for_elem target_url rest l
      else
        let! _ := emit (Select server_code) in
        let! current_content := submit elem target_url in
        let! verified := lift (verification_condition current_content) in
        if (verified : bool) then
          ret (Locals (bad_servers l) current_content)
        else
          let! bad := lift (py_setitem (bad_servers l) server_code) in
          let! _ := emit (Rejected server_code) in
          for_elem target_url rest (Locals bad (content l))
  end.

(** [for attempt in range(5): ...] over the remaining attempt numbers. *)
Fixpoint for_attempt (target_url : string) (attempts : list nat)
    (l : locals) : M locals :=
  match attempts with
  | [] => ret l
  | attempt :: rest =>
      let! _ := emit Get in
      match proxyium w attempt with
      | GetFails e => raise e
      | FormMissing consent e =>
          let! _ := click_consent consent in
          raise e
      | Loaded consent server_elements =>
          let! _ := click_consent consent in
          let! _ := emit (Found (List.length server_elements)) in
          let! l' := for_elem target_url server_elements l in
          if truthy (content l') then ret l'
          else for_attempt target_url rest l'
      end
  end.

Definition fetch_content_through_proxy (target_url : string) : M string :=
  let! _ := initialize_webdriver in
  let! loaded := load_bad_servers in
  try_finally
    (let! l := for_attempt target_url (seq 0 5) (Locals loaded "") in
     let! _ := (if truthy (content l) then ret tt
                else save_bad_servers (bad_servers l)) in
     ret (content l))
    (emit Quit).

End Retrieval.

(** The value the module assigns to [DATA_VERIFIER]. *)
Definition DATA_VERIFIER_literal : pyobj := PySet ["string to be checked"].

(** ** Reading a blacklist and a trace *)

Local Open Scope list_scope.

(** An endpoint is listed when [server_code in bad_servers] is true. *)
Definition listed (bad : json) (server_code : string) : Prop :=
  py_in_json server_code bad = Val true.

Definition is_select (e : event) : bool :=
  match e with Select _ => true | _ => false end.

Definition is_skip (e : event) : bool :=
  match e with Skip _ => true | _ => false end.

Definition is_quit (e : event) : bool :=
  match e with Quit => true | _ => false end.

Definition is_launch (e : event) : bool :=
  match e with Launch => true | _ => false end.

(** Candidates clicked and submitted. *)
Definition selects (t : list event) : nat := List.length (List.filter is_select t).

(** Candidates passed over as blacklisted. *)
Definition skips (t : list event) : nat := List.length (List.filter is_skip t).

Definition is_get (e : event) : bool :=
  match e with Get => true | _ => false end.

(** Navigations to the proxy entry page. *)
Definition gets (t : list event) : nat := List.length (List.filter is_get t).

(** Browsers started and browsers quit. *)
Definition launches (t : list event) : nat :=
  List.length (List.filter is_launch t).

Definition quits (t : list event) : nat := List.length (List.filter is_quit t).

(** Number of options enumerated: the first [Found] of a round, 0 when the
    round never got to enumerate. *)
Fixpoint found (t : list event) : nat :=
  match t with
  | [] => 0
  | Found n :: _ => n
  | _ :: t' => found t'
  end.

(** Cuts a trace at every [Get]: what precedes the first navigation, and the
    events of each navigation cycle. *)
Fixpoint split_rounds (t : list event) : list event * list (list event) :=
  match t with
  | [] => ([], [])
  | Get :: t' => ([], fst (split_rounds t') :: snd (split_rounds t'))
  | e :: t' => (e :: fst (split_rounds t'), snd (split_rounds t'))
  end.

Definition rounds (t : list event) : list (list event) := snd (split_rounds t).

Definition MAX_ROUNDS : nat := 5.

(** Once an endpoint is rejected it is not selected later in the trace. *)
Fixpoint no_reselect (t : list event) : Prop :=
  match t with
  | [] => True
  | e :: t' => (forall c, e = Rejected c -> ~ In (Select c) t') /\ no_reselect t'
  end.

(** Events of the candidate loop. *)
Definition inner_event (e : event) : Prop :=
  match e with
  | Skip _ | Select _ | Rejected _ => True
  | _ => False
  end.

(** Events of the round loop. *)
Definition round_event (e : event) : Prop :=
  match e with
  | Get | Consent | Found _ | Skip _ | Select _ | Rejected _ => True
  | _ => False
  end.

(** Events that belong to no candidate and start no round. *)
Definition quiet_event (e : event) : Prop :=
  match e with
  | Launch | Consent | Save _ | Quit => True
  | _ => False
  end.

(** ** What the loops guarantee *)

(** [m] run from [σ] leaves the store alone and appends [evs] to the trace. *)
Definition emits {A} (m : M A) (σ : state) (r : res A) (evs : list event) : Prop :=
  m σ = (r, State (fs σ) (trace σ ++ evs)).

(** What holds of the locals a loop hands back. *)
Definition locals_post (v : pyobj) (l : locals) (evs : list event)
    (r : res locals) : Prop :=
  match r with
  | Val l' =>
      (forall c, listed (bad_servers l) c -> listed (bad_servers l') c) /\
      (forall c, In (Rejected c) evs -> listed (bad_servers l') c) /\
      (content l' = content l \/ verification_condition v (content l') = Val true)
  | Exc _ => True
  end.

Record elem_post (v : pyobj) (elems : list option_elem) (l : locals)
    (evs : list event) (r : res locals) : Prop := ElemPost {
  ep_events : Forall inner_event evs;
  ep_count : selects evs + skips evs <= List.length elems;
  ep_fresh : forall c, In (Select c) evs -> ~ listed (bad_servers l) c;
  ep_order : no_reselect evs;
  ep_locals : locals_post v l evs r
}.

(** A navigation cycle stays within what it enumerated. *)
Definition round_ok (round : list event) : Prop :=
  selects round + skips round <= found round.

(** Whatever quiet events follow [evs], the trace has at most [k] cycles,
    each within what it enumerated. *)
Definition rounds_bounded (k : nat) (evs : list event) : Prop :=
  forall tail, Forall quiet_event tail ->
    Forall quiet_event (fst (split_rounds (evs ++ tail))) /\
    List.length (rounds (evs ++ tail)) <= k /\
    Forall round_ok (rounds (evs ++ tail)).

Record attempt_post (v : pyobj) (attempts : list nat) (l : locals)
    (evs : list event) (r : res locals) : Prop := AttemptPost {
  ap_events : Forall round_event evs;
  ap_rounds : rounds_bounded (List.length attempts) evs;
  ap_fresh : forall c, In (Select c) evs -> ~ listed (bad_servers l) c;
  ap_order : no_reselect evs;
  ap_locals : locals_post v l evs r
}.

(** The events a cycle emits before its candidate loop. *)
Definition round_head (consent : bool) (n : nat) : list event :=
  Get :: (if consent then [Consent] else []) ++ [Found n].

(** ** The exit paths of the call *)

(** What [load_bad_servers] returns, by the state of the backing file. *)
Definition load_result (st : store) : res json :=
  match backing st with
  | Absent => Val (JDict ∅)
  | Directory => Exc IsADirectoryError
  | Locked => Exc PermissionError
  | Holds NotText => Exc UnicodeDecodeError
  | Holds NotJson => Exc JSONDecodeError
  | Holds TooDeep => Exc RecursionError
  | Holds (Json v) => Val v
  end.

(** The exit paths of [fetch_content_through_proxy]. *)
Inductive exit_path (v : pyobj) (w : world) (st : store) :
    res string * state -> Prop :=
| no_browser e :
    chrome w = Some e ->
    exit_path v w st (Exc e, boot st)
| no_blacklist e :
    chrome w = None -> load_result st = Exc e ->
    exit_path v w st (Exc e, State st [Launch])
| aborted loaded evs e :
    chrome w = None -> load_result st = Val loaded ->
    attempt_post v (seq 0 5) (Locals loaded "") evs (Exc e) ->
    exit_path v w st (Exc e, State st (Launch :: evs ++ [Quit]))
| succeeded loaded evs l :
    chrome w = None -> load_result st = Val loaded ->
    attempt_post v (seq 0 5) (Locals loaded "") evs (Val l) ->
    truthy (content l) = true ->
    exit_path v w st (Val (content l), State st (Launch :: evs ++ [Quit]))
| exhausted loaded evs l :
    chrome w = None -> load_result st = Val loaded ->
    attempt_post v (seq 0 5) (Locals loaded "") evs (Val l) ->
    truthy (content l) = false -> writable st = true ->
    exit_path v w st
      (Val (content l),
       State (Store (Holds (Json (bad_servers l))) true)
             (Launch :: evs ++ [Save (bad_servers l); Quit]))
| unsaved loaded evs l :
    chrome w = None -> load_result st = Val loaded ->
    attempt_post v (seq 0 5) (Locals loaded "") evs (Val l) ->
    truthy (content l) = false -> writable st = false ->
    exit_path v w st (Exc PermissionError, State st (Launch :: evs ++ [Quit])).

(** What the call does once the browser runs and the blacklist is loaded:
    the rounds, then the save on an empty result, then [driver.quit()]. *)
Definition epilogue (st : store) (r : res locals) (evs : list event) :
    res string * state :=
  match r with
  | Exc e => (Exc e, State st (Launch :: evs ++ [Quit]))
  | Val l =>
      if truthy (content l)
      then (Val (content l), State st (Launch :: evs ++ [Quit]))
      else if writable st
           then (Val (content l),
                 State (Store (Holds (Json (bad_servers l))) true)
                       (Launch :: evs ++ [Save (bad_servers l); Quit]))
           else (Exc PermissionError, State st (Launch :: evs ++ [Quit]))
  end.

(** ** Scenarios *)

Definition r1 : option_elem :=
  OptionElem (Val "r1") (fun _ => Rendered "Access denied").

Definition r2 : option_elem :=
  OptionElem (Val "r2") (fun _ => Rendered "header PAGE-OK footer").

Definition r2_down : option_elem :=
  OptionElem (Val "r2") (fun _ => Rendered "Bad gateway").

(** Every attempt finds [r1] then [r2]; only [r2] relays the page. *)
Definition second_relay_works : world :=
  World None (fun _ => Loaded true [r1; r2]).

(** Every attempt finds [r1] then [r2]; neither relays the page. *)
Definition no_relay_works : world :=
  World None (fun _ => Loaded true [r1; r2_down]).

(** The first attempt finds only [r1]; later ones find [r1] then [r2]. *)
Definition relay_appears_later : world :=
  World None (fun attempt =>
    match attempt with
    | 0 => Loaded true [r1]
    | _ => Loaded true [r1; r2]
    end).

Definition no_file : store := Store Absent true.
Definition garbled_file : store := Store (Holds NotJson) true.
Definition r1_known_bad : store :=
  Store (Holds (Json (JDict {["r1" := JInt 1]}))) true.

(** ** The verification condition, as the specification reads it *)

(** The single check the duplicated condition is read as: the reference
    marker is contained in the text. *)
Definition single_containment_check (marker : pyobj) (text : string) : res bool :=
  py_in_str marker text.

(** ** The loops as relations *)

(** [m] gives [r] and appends [evs], from whatever state it is run. *)
Definition runs {A} (m : M A) (r : res A) (evs : list event) : Prop :=
  forall σ, emits m σ r evs.

(** The candidate loop, one rule per way through its body. *)
Inductive elem_trace (v : pyobj) (url : string) :
    list option_elem -> locals -> res locals -> list event -> Prop :=
| et_done l :
    elem_trace v url [] l (Val l) []
| et_attribute_raises elem rest l e :
    data_value elem = Exc e ->
    elem_trace v url (elem :: rest) l (Exc e) []
| et_membership_raises elem rest l code e :
    data_value elem = Val code ->
    py_in_json code (bad_servers l) = Exc e ->
    elem_trace v url (elem :: rest) l (Exc e) []
| et_skip elem rest l code r evs :
    data_value elem = Val code ->
    py_in_json code (bad_servers l) = Val true ->
    elem_trace v url rest l r evs ->
    elem_trace v url (elem :: rest) l r (Skip code :: evs)
| et_broken elem rest l code e :
    data_value elem = Val code ->
    py_in_json code (bad_servers l) = Val false ->
    after_submit elem url = Broken e ->
    elem_trace v url (elem :: rest) l (Exc e) [Select code]
| et_test_raises elem rest l code text e :
    data_value elem = Val code ->
    py_in_json code (bad_servers l) = Val false ->
    after_submit elem url = Rendered text ->
    verification_condition v text = Exc e ->
    elem_trace v url (elem :: rest) l (Exc e) [Select code]
| et_break elem rest l code text :
    data_value elem = Val code ->
    py_in_json code (bad_servers l) = Val false ->
    after_submit elem url = Rendered text ->
    verification_condition v text = Val true ->
    elem_trace v url (elem :: rest) l (Val (Locals (bad_servers l) text))
      [Select code]
| et_setitem_raises elem rest l code text e :
    data_value elem = Val code ->
    py_in_json code (bad_servers l) = Val false ->
    after_submit elem url = Rendered text ->
    verification_condition v text = Val false ->
    py_setitem (bad_servers l) code = Exc e ->
    elem_trace v url (elem :: rest) l (Exc e) [Select code]
| et_reject elem rest l code text bad r evs :
    data_value elem = Val code ->
    py_in_json code (bad_servers l) = Val false ->
    after_submit elem url = Rendered text ->
    verification_condition v text = Val false ->
    py_setitem (bad_servers l) code = Val bad ->
    elem_trace v url rest (Locals bad (content l)) r evs ->
    elem_trace v url (elem :: rest) l r (Select code :: Rejected code :: evs).

(** The round loop, one rule per way through its body. *)
Inductive attempt_trace (v : pyobj) (w : world) (url : string) :
    list nat -> locals -> res locals -> list event -> Prop :=
| at_done l :
    attempt_trace v w url [] l (Val l) []
| at_get_fails attempt rest l e :
    proxyium w attempt = GetFails e ->
    attempt_trace v w url (attempt :: rest) l (Exc e) [Get]
| at_form_missing attempt rest l consent e :
    proxyium w attempt = FormMissing consent e ->
    attempt_trace v w url (attempt :: rest) l (Exc e)
      (Get :: if consent then [Consent] else [])
| at_loop_raises attempt rest l consent elems e inner :
    proxyium w attempt = Loaded consent elems ->
    elem_trace v url elems l (Exc e) inner ->
    attempt_trace v w url (attempt :: rest) l (Exc e)
      (round_head consent (List.length elems) ++ inner)
| at_found attempt rest l consent elems l1 inner :
    proxyium w attempt = Loaded consent elems ->
    elem_trace v url elems l (Val l1) inner ->
    truthy (content l1) = true ->
    attempt_trace v w url (attempt :: rest) l (Val l1)
      (round_head consent (List.length elems) ++ inner)
| at_next attempt rest l consent elems l1 inner r more :
    proxyium w attempt = Loaded consent elems ->
    elem_trace v url elems l (Val l1) inner ->
    truthy (content l1) = false ->
    attempt_trace v w url rest l1 r more ->
    attempt_trace v w url (attempt :: rest) l r
      (round_head consent (List.length elems) ++ inner ++ more).

(** The endpoints a trace went through, selected or skipped, in order. *)
Fixpoint visited (t : list event) : list string :=
  match t with
  | [] => []
  | Select c :: t' => c :: visited t'
  | Skip c :: t' => c :: visited t'
  | _ :: t' => visited t'
  end.

Definition is_consent (e : event) : bool :=
  match e with Consent => true | _ => false end.

(** A trace with the consent clicks left out. *)
Definition strip_consent (t : list event) : list event :=
  List.filter (fun e => negb (is_consent e)) t.

(** A site on which the consent button never becomes clickable. *)
Definition without_consent (w : world) : world :=
  World (chrome w)
        (fun attempt =>
           match proxyium w attempt with
           | GetFails e => GetFails e
           | FormMissing _ e => FormMissing false e
           | Loaded _ elems => Loaded false elems
           end).

Definition is_rejected (e : event) : bool :=
  match e with Rejected _ => true | _ => false end.

(** Endpoints added to the in-memory blacklist. *)
Definition rejections (t : list event) : nat :=
  List.length (List.filter is_rejected t).

(** The endpoints [round] went through are the first options of [elems], in
    the order of the page and with none left out in between. *)
Definition in_page_order (elems : list option_elem) (round : list event) : Prop :=
  exists rest, map data_value elems = map Val (visited round) ++ rest.

(** Every skip in the trace is of an endpoint that was known bad at that
    point: known at the start, or rejected earlier in the trace. *)
Fixpoint skips_known (known : string -> Prop) (t : list event) : Prop :=
  match t with
  | [] => True
  | Skip c :: t' => known c /\ skips_known known t'
  | Rejected c :: t' => skips_known (fun x => x = c \/ known x) t'
  | _ :: t' => skips_known known t'
  end.

(** The site offers [elem] in one of the attempts. *)
Definition offered (w : world) (attempts : list nat) (elem : option_elem) : Prop :=
  exists attempt consent elems,
    In attempt attempts /\ proxyium w attempt = Loaded consent elems /\
    In elem elems.

(** The first attempt finds [r1], which does not relay the page; from the
    second attempt on the form never shows. *)
Definition form_vanishes : world :=
  World None (fun attempt =>
    match attempt with
    | 0 => Loaded true [r1]
    | _ => FormMissing false TimeoutException
    end).

(** The dropdown never lists an option. *)
Definition empty_dropdown : world :=
  World None (fun _ => Loaded false []).

(** The page of an attempt could not be brought up with error [e]. *)
Definition page_fails (w : world) (attempt : nat) (e : exn) : Prop :=
  proxyium w attempt = GetFails e \/
  exists consent, proxyium w attempt = FormMissing consent e.

(** Every option of the list is readable and already blacklisted. *)
Definition all_listed (bad : json) (elems : list option_elem) : Prop :=
  Forall (fun elem => exists c, data_value elem = Val c /\ listed bad c) elems.

(** ** The request handler *)

(** A [flask.Response]; [mimetype] is [None] where the call gives none. *)
Record response := Response {
  body : string;
  status : nat;
  mimetype : option string
}.

Section Handler.

(** [URL_MAP] is a module-level name like [DATA_VERIFIER]; the object the
    module binds is [URL_MAP_literal] below. *)
Variable URL_MAP : gmap string string.
Variable DATA_VERIFIER : pyobj.
Variable w : world.

(** [target_url = URL_MAP.get(content_type)], then [if not target_url]: a
    missing key gives [None], and both [None] and the empty [str] are
    false. *)
Definition get_content (content_type : string) : M response :=
  match URL_MAP !! content_type with
  | None => ret (Response "Content type not supported" 400 None)
  | Some target_url =>
      if truthy target_url then
        let! content := fetch_content_through_proxy DATA_VERIFIER w target_url in
        ret (Response content 200 (Some "application/javascript"))
      else ret (Response "Content type not supported" 400 None)
  end.

End Handler.

Definition URL_MAP_literal : gmap string string :=
  {["placeholder" := "https://example.com"]}.

(** ** Users and passwords *)

(** A row of the [User] table. *)
Record User := MkUser {
  user_id : Z;
  username : string;
  password_hash : string
}.

Section Auth.

(** [werkzeug.security]: hashing draws a salt, checking reads it back from
    the hash. *)
Variable generate_password_hash : string -> string -> string.
Variable check_password_hash : string -> string -> bool.

Definition set_password (self : User) (salt password : string) : User :=
  MkUser (user_id self) (username self) (generate_password_hash salt password).

Definition check_password (self : User) (password : string) : bool :=
  check_password_hash (password_hash self) password.

(** [User.query.filter_by(username=username).first()] *)
Definition query_first (users : list User) (name : string) : option User :=
  List.find (fun u => String.eqb (username u) name) users.

Definition verify_password (users : list User) (name password : string) : bool :=
  let user := query_first users name in
  if negb (truthy name) || negb (truthy password) then false
  else match user with
       | None => false
       | Some u => if negb (check_password u password) then false else true
       end.

End Auth.

(** A stand-in pair for the hashing functions that stores the password
    itself, salt ignored. *)
Definition plain_hash (salt password : string) : string := password.

Definition plain_check (hash password : string) : bool := String.eqb hash password.

(** * Proofs *)

(** ** The Python operators *)

Lemma prefix_split (p s : string) :
  String.prefix p s = true <-> exists post, s = String.append p post.
Proof.
  revert s. induction p as [|a p IH]; intros s; simpl.
  - split; [intros _; now exists s | intros _; now destruct s].
  - destruct s as [|b s].
    + split; [discriminate | intros [post H]; discriminate].
    + simpl. destruct (Ascii.ascii_dec a b) as [->|Hne].
      * rewrite IH. split; intros [post H]; exists post.
        -- now rewrite H.
        -- now inversion H.
      * split; [discriminate | intros [post H]; inversion H; congruence].
Qed.

Lemma contains_unfold (needle hay : string) :
  contains needle hay =
  if String.prefix needle hay then true
  else match hay with
       | EmptyString => false
       | String _ rest => contains needle rest
       end.
Proof. now destruct hay. Qed.

(** [contains] finds exactly the substrings. *)
Lemma contains_spec (needle hay : string) :
  contains needle hay = true <->
  exists pre post, hay = String.append pre (String.append needle post).
Proof.
  induction hay as [|a hay IH]; rewrite contains_unfold;
    destruct (String.prefix needle _) eqn:E.
  - apply prefix_split in E as [post E].
    split; [intros _; now exists "", post | reflexivity].
  - split; [discriminate|].
    intros [pre [post H]].
    destruct pre; [|discriminate]. simpl in H.
    assert (String.prefix needle "" = true) by (apply prefix_split; eauto).
    congruence.
  - apply prefix_split in E as [post E].
    split; [intros _; now exists "", post | reflexivity].
  - rewrite IH. split.
    + intros [pre [post H]]. exists (String a pre), post. simpl. now rewrite H.
    + intros [pre [post H]]. destruct pre as [|b pre]; simpl in H.
      * assert (String.prefix needle (String a hay) = true)
          by (apply prefix_split; eauto).
        congruence.
      * inversion H. eauto.
Qed.

Lemma listed_setitem_same (bad bad' : json) (c : string) :
  py_setitem bad c = Val bad' -> listed bad' c.
Proof.
  destruct bad; simpl; try discriminate.
  intros [= <-]. unfold listed. simpl. f_equal.
  apply bool_decide_eq_true. rewrite lookup_insert_eq. eauto.
Qed.

Lemma listed_setitem_mono (bad bad' : json) (c k : string) :
  py_setitem bad c = Val bad' -> listed bad k -> listed bad' k.
Proof.
  destruct bad; simpl; try discriminate.
  intros [= <-]. unfold listed. simpl. intros [= H]. f_equal.
  apply bool_decide_eq_true in H. apply bool_decide_eq_true.
  destruct (decide (c = k)) as [->|Hne].
  - rewrite lookup_insert_eq. eauto.
  - now rewrite lookup_insert_ne.
Qed.

Lemma verification_condition_true (v : pyobj) (text : string) :
  verification_condition v text = Val true ->
  exists marker, v = PyStr marker /\ contains marker text = true.
Proof.
  unfold verification_condition, py_or, py_in_str.
  destruct v as [s|elems]; [|discriminate].
  destruct (contains s text) eqn:E; [|discriminate].
  intros _. now exists s.
Qed.

(** ** Traces *)

Lemma no_reselect_app (a b : list event) :
  no_reselect a -> no_reselect b ->
  (forall c, In (Rejected c) a -> ~ In (Select c) b) ->
  no_reselect (a ++ b).
Proof.
  induction a as [|e a IH]; simpl; [tauto|].
  intros [He Ha] Hb Hab. split.
  - intros c -> Hin. apply in_app_iff in Hin as [Hin|Hin].
    + now apply (He c).
    + apply (Hab c); auto.
  - apply IH; auto.
Qed.

Lemma no_reselect_split (t1 t2 : list event) (c : string) :
  no_reselect (t1 ++ Rejected c :: t2) -> ~ In (Select c) t2.
Proof.
  induction t1 as [|e t1 IH]; simpl.
  - intros [H _]. now apply H.
  - intros [_ H]. now apply IH.
Qed.

Lemma no_reselect_quiet (t : list event) :
  Forall (fun e => forall c, e <> Rejected c) t -> no_reselect t.
Proof.
  induction 1 as [|e t He _ IH]; simpl; [exact I|].
  split; [|exact IH]. intros c ->. now destruct (He c).
Qed.

Lemma selects_app (a b : list event) : selects (a ++ b) = selects a + selects b.
Proof. unfold selects. now rewrite List.filter_app, length_app. Qed.

Lemma skips_app (a b : list event) : skips (a ++ b) = skips a + skips b.
Proof. unfold skips. now rewrite List.filter_app, length_app. Qed.

Lemma quiet_counts (t : list event) :
  Forall quiet_event t -> selects t = 0 /\ skips t = 0 /\ found t = 0.
Proof.
  induction 1 as [|e t He _ IH]; [easy|].
  destruct e; try contradiction; exact IH.
Qed.

Lemma split_rounds_inner (a b : list event) :
  Forall (fun e => e <> Get) a ->
  split_rounds (a ++ b) = (a ++ fst (split_rounds b), snd (split_rounds b)).
Proof.
  induction 1 as [|e a He _ IH]; simpl.
  - now destruct (split_rounds b).
  - destruct e; try congruence; simpl; now rewrite IH.
Qed.

(** ** The candidate loop *)

Lemma state_eta (σ : state) : State (fs σ) (trace σ ++ []) = σ.
Proof. destruct σ. simpl. now rewrite app_nil_r. Qed.

Ltac count_events := unfold selects, skips in *; simpl in *; lia.

(** The loop stopped right after selecting [code]. *)
Ltac stopped_at_select Hnot :=
  split;
  [ repeat constructor
  | count_events
  | intros ? [[= <-]|[]]; exact Hnot
  | simpl; split; [intros ? ?; discriminate | exact I]
  | simpl; try exact I ].

(** Unfolds one step of a loop body run from a state, using the equations
    recorded for the tests it meets. *)
Ltac run_body :=
  intros ?; unfold emits; simpl;
  unfold bind, lift, emit, submit, ret, raise; simpl;
  repeat match goal with
         | H : _ = _ |- _ => rewrite H; simpl
         end;
  rewrite <- ?app_assoc; simpl; rewrite ?state_eta; try reflexivity.

Lemma for_elem_emits (v : pyobj) (url : string) (elems : list option_elem) :
  forall l, exists r evs,
    (forall σ, emits (for_elem v url elems l) σ r evs) /\
    elem_post v elems l evs r.
Proof.
  induction elems as [|elem rest IH]; intros l.
  - exists (Val l), []. split; [run_body|].
    split; simpl; auto with arith; tauto.
  - destruct (data_value elem) as [code|e] eqn:Hd.
    2:{ exists (Exc e), []. split; [run_body|].
        split; simpl; auto with arith; tauto. }
    destruct (py_in_json code (bad_servers l)) as [[|]|e] eqn:Hin.
    3:{ exists (Exc e), []. split; [run_body|].
        split; simpl; auto with arith; tauto. }
    + (* skipped *)
      destruct (IH l) as (r & evs & Hrun & Hp).
      exists r, (Skip code :: evs). split.
      { intros σ. unfold emits. simpl. unfold bind, lift, emit. rewrite Hd, Hin.
        rewrite Hrun. simpl. now rewrite <- app_assoc. }
      destruct Hp as [H1 H2 H3 H4 H5]. split.
      * constructor; [exact I | exact H1].
      * count_events.
      * intros c [Hc|Hc]; [discriminate | now apply H3].
      * simpl. split; [intros c Hc; discriminate | exact H4].
      * destruct r as [l'|e]; [|exact I]. destruct H5 as (Ha & Hb & Hc).
        repeat split; auto. intros c [Hd'|Hd']; [discriminate | now apply Hb].
    + (* selected *)
      assert (Hnot : ~ listed (bad_servers l) code)
        by (unfold listed; congruence).
      destruct (after_submit elem url) as [e|text] eqn:Hsub.
      { exists (Exc e), [Select code]. split; [run_body|].
        stopped_at_select Hnot. }
      destruct (verification_condition v text) as [[|]|e] eqn:Hver.
      * (* verified: break *)
        exists (Val (Locals (bad_servers l) text)), [Select code].
        split; [run_body|].
        stopped_at_select Hnot.
        repeat split; auto. intros c [Hc|[]]. discriminate.
      * (* rejected *)
        destruct (py_setitem (bad_servers l) code) as [bad|e] eqn:Hset.
        2:{ exists (Exc e), [Select code]. split; [run_body|].
            stopped_at_select Hnot. }
        destruct (IH (Locals bad (content l))) as (r & evs & Hrun & Hp).
        exists r, (Select code :: Rejected code :: evs). split.
        { intros σ. unfold emits. simpl. unfold bind, lift, emit, submit, ret.
          rewrite Hd, Hin. simpl. rewrite Hsub, Hver, Hset. simpl.
          rewrite Hrun. simpl. now rewrite <- !app_assoc. }
        destruct Hp as [H1 H2 H3 H4 H5]. simpl in H3.
        assert (Hgone : ~ In (Select code) evs).
        { intros Hc. apply (H3 code Hc). eapply listed_setitem_same; eauto. }
        split.
        -- repeat constructor. exact H1.
        -- count_events.
        -- intros c [[= <-]|[Hc|Hc]]; [exact Hnot | discriminate |].
           intros Hl. apply (H3 c Hc). eapply listed_setitem_mono; eauto.
        -- simpl. split; [intros c Hc; discriminate|].
           split; [|exact H4]. intros c [= <-]. exact Hgone.
        -- destruct r as [l'|e]; [|exact I]. destruct H5 as (Ha & Hb & Hc).
           simpl in Ha, Hc. repeat split; auto.
           ++ intros c Hl. apply Ha. eapply listed_setitem_mono; eauto.
           ++ intros c [Hd'|[[= <-]|Hd']]; [discriminate | | now apply Hb].
              apply Ha. eapply listed_setitem_same; eauto.
      * exists (Exc e), [Select code]. split; [run_body|].
        stopped_at_select Hnot.
Qed.

(** ** The round loop *)

Lemma split_rounds_quiet (t : list event) :
  Forall quiet_event t -> split_rounds t = (t, []).
Proof.
  induction 1 as [|e t He _ IH]; [reflexivity|].
  destruct e; try contradiction; simpl; now rewrite IH.
Qed.

Lemma click_consent_emits (consent : bool) (σ : state) :
  emits (click_consent consent) σ (Val tt) (if consent then [Consent] else []).
Proof.
  unfold emits, click_consent, try_except. destruct consent; simpl.
  - reflexivity.
  - unfold ret. now rewrite state_eta.
Qed.

Lemma quiet_consent (consent : bool) :
  Forall quiet_event (if consent then [Consent] else []).
Proof. destruct consent; repeat constructor. Qed.

Lemma inner_not_get (t : list event) :
  Forall inner_event t -> Forall (fun e => e <> Get) t.
Proof. induction 1 as [|e t He _ IH]; constructor; [now intros -> | exact IH]. Qed.

Lemma inner_round_event (t : list event) :
  Forall inner_event t -> Forall round_event t.
Proof. induction 1 as [|e t He _ IH]; constructor; [now destruct e | exact IH]. Qed.

(** The trace of one navigation cycle that reached the candidate loop,
    followed by whatever later cycles and the epilogue emit. *)
Lemma round_ok_body (consent : bool) (n : nat) (inner p : list event) :
  Forall inner_event inner -> Forall quiet_event p ->
  selects inner + skips inner <= n ->
  round_ok ((if consent then [Consent] else []) ++ Found n :: inner ++ p).
Proof.
  intros Hi Hp Hn. unfold round_ok.
  destruct (quiet_counts p Hp) as (Hs & Hk & _).
  assert (selects (Found n :: inner ++ p) = selects inner) as Es.
  { change (Found n :: inner ++ p) with ([Found n] ++ inner ++ p).
    rewrite !selects_app, Hs. unfold selects. simpl. lia. }
  assert (skips (Found n :: inner ++ p) = skips inner) as Ek.
  { change (Found n :: inner ++ p) with ([Found n] ++ inner ++ p).
    rewrite !skips_app, Hk. unfold skips. simpl. lia. }
  destruct consent.
  - change ([Consent] ++ Found n :: inner ++ p)
      with (Consent :: Found n :: inner ++ p).
    unfold selects, skips in *. simpl in *. lia.
  - simpl app. simpl found. lia.
Qed.

Lemma locals_post_trans (v : pyobj) (l l1 : locals) (a b : list event)
    (r : res locals) :
  locals_post v l a (Val l1) -> locals_post v l1 b r ->
  locals_post v l (a ++ b) r.
Proof.
  intros (Ha1 & Ha2 & Ha3) Hb. destruct r as [l2|e]; [|exact I].
  destruct Hb as (Hb1 & Hb2 & Hb3). repeat split.
  - auto.
  - intros c Hc. apply in_app_iff in Hc as [Hc|Hc]; auto.
  - destruct Hb3 as [Hb3|Hb3]; [|now right].
    rewrite Hb3. exact Ha3.
Qed.

Lemma locals_post_head (v : pyobj) (l : locals) (h evs : list event)
    (r : res locals) :
  Forall (fun e => forall c, e <> Rejected c) h ->
  locals_post v l evs r -> locals_post v l (h ++ evs) r.
Proof.
  intros Hh Hp. destruct r as [l'|e]; [|exact I].
  destruct Hp as (H1 & H2 & H3). repeat split; auto.
  intros c Hc. apply in_app_iff in Hc as [Hc|Hc]; auto.
  rewrite List.Forall_forall in Hh. now destruct (Hh _ Hc c).
Qed.

Lemma round_head_plain (consent : bool) (n : nat) :
  Forall round_event (round_head consent n) /\
  Forall (fun e => forall c, e <> Rejected c /\ e <> Select c) (round_head consent n).
Proof. destruct consent; split; repeat constructor; discriminate. Qed.

Lemma rounds_bounded_nil (k : nat) : rounds_bounded k [].
Proof.
  intros tail Ht. unfold rounds. simpl. rewrite (split_rounds_quiet _ Ht).
  simpl. repeat split; auto with arith.
Qed.

Lemma rounds_bounded_cons (consent : bool) (n k : nat) (inner more : list event) :
  Forall inner_event inner -> selects inner + skips inner <= n ->
  rounds_bounded k more ->
  rounds_bounded (S k) (round_head consent n ++ inner ++ more).
Proof.
  intros Hi Hn Hmore tail Ht.
  destruct (Hmore tail Ht) as (Hp & Hlen & Hok).
  assert (Hshape : (round_head consent n ++ inner ++ more) ++ tail =
            Get :: ((if consent then [Consent] else []) ++ Found n :: inner)
                   ++ (more ++ tail)).
  { unfold round_head. simpl. now rewrite <- !app_assoc. }
  assert (Hnoget : Forall (fun e => e <> Get)
            ((if consent then [Consent] else []) ++ Found n :: inner)).
  { apply Forall_app. split.
    - destruct consent; repeat constructor; discriminate.
    - constructor; [discriminate | now apply inner_not_get]. }
  unfold rounds in *. rewrite Hshape. simpl.
  rewrite (split_rounds_inner _ _ Hnoget). simpl.
  repeat split; auto with arith.
  constructor; [|exact Hok].
  rewrite <- app_assoc. simpl. now apply round_ok_body.
Qed.

Lemma order_cons (consent : bool) (n : nat) (inner more : list event) :
  no_reselect inner -> no_reselect more ->
  (forall c, In (Rejected c) inner -> ~ In (Select c) more) ->
  no_reselect (round_head consent n ++ inner ++ more).
Proof.
  intros Hi Hm Hcross.
  destruct (round_head_plain consent n) as [_ Hplain].
  apply no_reselect_app.
  - apply no_reselect_quiet. eapply Forall_impl; [exact Hplain|].
    intros e He c. apply He.
  - now apply no_reselect_app.
  - intros c Hc. rewrite List.Forall_forall in Hplain.
    now destruct (Hplain _ Hc c).
Qed.

Lemma fresh_cons (consent : bool) (n : nat) (inner more : list event)
    (P : string -> Prop) :
  (forall c, In (Select c) inner -> P c) ->
  (forall c, In (Select c) more -> P c) ->
  forall c, In (Select c) (round_head consent n ++ inner ++ more) -> P c.
Proof.
  intros Hi Hm c Hc.
  destruct (round_head_plain consent n) as [_ Hplain].
  rewrite List.Forall_forall in Hplain.
  apply in_app_iff in Hc as [Hc|Hc]; [now destruct (Hplain _ Hc c)|].
  apply in_app_iff in Hc as [Hc|Hc]; auto.
Qed.

Lemma for_attempt_emits (v : pyobj) (w : world) (url : string)
    (attempts : list nat) :
  forall l, exists r evs,
    (forall σ, emits (for_attempt v w url attempts l) σ r evs) /\
    attempt_post v attempts l evs r.
Proof.
  induction attempts as [|attempt rest IH]; intros l.
  - exists (Val l), []. split; [run_body|].
    split; simpl; try tauto; auto.
    apply rounds_bounded_nil.
  - destruct (proxyium w attempt) as [e|consent e|consent elems] eqn:Hpage.
    + (* driver.get raises *)
      exists (Exc e), [Get]. split; [run_body|].
      split.
      * repeat constructor.
      * intros tail Ht. unfold rounds. simpl.
        rewrite (split_rounds_quiet _ Ht). simpl.
        repeat split; auto with arith. constructor; [|constructor].
        unfold round_ok. destruct (quiet_counts _ Ht) as (-> & -> & ->). lia.
      * intros c [Hc|[]]. discriminate.
      * simpl. split; [discriminate | exact I].
      * exact I.
    + (* the form never shows *)
      exists (Exc e), (Get :: if consent then [Consent] else []).
      split.
      { intros σ. unfold emits. simpl. unfold bind at 1, emit at 1.
        rewrite Hpage. unfold bind at 1.
        rewrite (click_consent_emits consent). simpl.
        now rewrite <- app_assoc. }
      pose proof (quiet_consent consent) as Hq.
      split.
      * constructor; [exact I|]. destruct consent; repeat constructor.
      * intros tail Ht. unfold rounds. simpl.
        assert (Hall : Forall quiet_event ((if consent then [Consent] else []) ++ tail))
          by (apply Forall_app; auto).
        rewrite (split_rounds_quiet _ Hall). simpl.
        repeat split; auto with arith. constructor; [|constructor].
        unfold round_ok. destruct (quiet_counts _ Hall) as (-> & -> & ->). lia.
      * intros c Hc. destruct consent; simpl in Hc; intuition discriminate.
      * simpl. split; [discriminate|]. apply no_reselect_quiet.
        destruct consent; repeat constructor; discriminate.
      * exact I.
    + (* the candidate loop runs *)
      destruct (for_elem_emits v url elems l) as (r1 & inner & Hinner & Hp).
      destruct Hp as [E1 E2 E3 E4 E5].
      pose proof (round_head_plain consent (List.length elems)) as [Hh1 Hh2].
      assert (Hrun1 : forall σ,
                for_attempt v w url (attempt :: rest) l σ =
                match r1 with
                | Val l1 =>
                    if truthy (content l1)
                    then (Val l1, State (fs σ) (trace σ ++
                            round_head consent (List.length elems) ++ inner))
                    else for_attempt v w url rest l1
                           (State (fs σ) (trace σ ++
                              round_head consent (List.length elems) ++ inner))
                | Exc e => (Exc e, State (fs σ) (trace σ ++
                              round_head consent (List.length elems) ++ inner))
                end).
      { intros σ. simpl. unfold bind at 1, emit at 1.
        rewrite Hpage. unfold bind at 1.
        rewrite (click_consent_emits consent). simpl fs. simpl trace.
        unfold bind at 1, emit at 1. simpl fs. simpl trace.
        unfold bind at 1. rewrite Hinner. simpl fs. simpl trace.
        unfold round_head. simpl. rewrite <- !app_assoc. simpl.
        destruct r1 as [l1|e]; [|reflexivity].
        unfold ret. now destruct (truthy (content l1)). }
      assert (Hstop : forall r, locals_post v l inner r ->
                attempt_post v (attempt :: rest) l
                  (round_head consent (List.length elems) ++ inner) r).
      { intros r Hr. rewrite <- (app_nil_r inner). split.
        - apply Forall_app. split; [exact Hh1|].
          rewrite app_nil_r. now apply inner_round_event.
        - apply rounds_bounded_cons; auto. apply rounds_bounded_nil.
        - apply fresh_cons; [exact E3 | intros c []].
        - apply order_cons; simpl; auto.
        - rewrite app_nil_r. apply locals_post_head; [|exact Hr].
          eapply Forall_impl; [exact Hh2|]. intros e He c. apply He. }
      destruct r1 as [l1|e].
      2:{ exists (Exc e), (round_head consent (List.length elems) ++ inner).
          split; [intros σ; unfold emits; now rewrite Hrun1 | now apply Hstop]. }
      destruct (truthy (content l1)) eqn:Htruthy.
      { exists (Val l1), (round_head consent (List.length elems) ++ inner).
        split; [intros σ; unfold emits; now rewrite Hrun1 | now apply Hstop]. }
      destruct (IH l1) as (r & more & Hrun & Hp).
      destruct Hp as [A1 A2 A3 A4 A5].
      exists r, (round_head consent (List.length elems) ++ inner ++ more).
      split.
      { intros σ. unfold emits. rewrite Hrun1, Hrun. cbn [fs trace].
        now rewrite <- !app_assoc. }
      pose proof E5 as (G1 & G2 & G3).
      split.
      * apply Forall_app. split; [exact Hh1|].
        apply Forall_app. split; [now apply inner_round_event | exact A1].
      * apply rounds_bounded_cons; auto.
      * apply fresh_cons; [exact E3|].
        intros c Hc Hl. apply (A3 c Hc). now apply G1.
      * apply order_cons; auto.
        intros c Hc Hsel. apply (A3 c Hsel). now apply G2.
      * apply locals_post_head.
        -- eapply Forall_impl; [exact Hh2|]. intros e He c. apply He.
        -- eapply locals_post_trans; eauto.
Qed.

(** ** The whole call *)

Lemma load_bad_servers_run (σ : state) :
  load_bad_servers σ = (load_result (fs σ), σ).
Proof.
  unfold load_bad_servers, load_result, try_except, bind, path_exists,
    open_and_json_load, ret, raise.
  destruct (backing (fs σ)) as [| | |[| | |v]] eqn:E; cbv beta iota; rewrite ?E;
    reflexivity.
Qed.

(** Where a blacklist could be loaded, saving depends on the write
    permission alone. *)
Lemma save_after_load (st : store) (loaded bad : json) (t : list event) :
  load_result st = Val loaded ->
  save_bad_servers bad (State st t) =
  if writable st
  then (Val tt, State (Store (Holds (Json bad)) true) (t ++ [Save bad]))
  else (Exc PermissionError, State st t).
Proof.
  unfold load_result, save_bad_servers. simpl.
  destruct (backing st) as [| | |[| | |v]]; intros H;
    try discriminate H; reflexivity.
Qed.

Lemma fetch_after_load (v : pyobj) (w : world) (url : string) (loaded : json) :
  exists r evs,
    attempt_post v (seq 0 5) (Locals loaded "") evs r /\
    forall st, chrome w = None -> load_result st = Val loaded ->
      fetch_content_through_proxy v w url (boot st) = epilogue st r evs.
Proof.
  destruct (for_attempt_emits v w url (seq 0 5) (Locals loaded ""))
    as (r & evs & Hrun & Hp).
  exists r, evs. split; [exact Hp|]. intros st Hchrome Hload.
  unfold fetch_content_through_proxy, initialize_webdriver. rewrite Hchrome.
  unfold bind at 1, emit at 1. unfold bind at 1.
  rewrite load_bad_servers_run. cbn [fs trace boot]. rewrite Hload.
  unfold try_finally, bind at 1. rewrite Hrun. cbn [fs trace].
  unfold epilogue. destruct r as [l|e]; [|reflexivity].
  unfold bind at 1.
  destruct (truthy (content l)) eqn:Htruthy; [reflexivity|].
  rewrite (save_after_load st loaded _ _ Hload).
  destruct (writable st) eqn:Hw; [|reflexivity].
  unfold ret, emit. cbn [fs trace]. now rewrite <- app_assoc.
Qed.

Lemma fetch_exit_path (v : pyobj) (w : world) (url : string) (st : store) :
  exit_path v w st (fetch_content_through_proxy v w url (boot st)).
Proof.
  destruct (chrome w) as [e|] eqn:Hchrome.
  { unfold fetch_content_through_proxy, initialize_webdriver. rewrite Hchrome.
    unfold bind, raise. now apply no_browser. }
  destruct (load_result st) as [loaded|e] eqn:Hload.
  2:{ unfold fetch_content_through_proxy, initialize_webdriver. rewrite Hchrome.
      unfold bind at 1, emit at 1. unfold bind at 1.
      rewrite load_bad_servers_run. cbn [fs trace boot]. rewrite Hload.
      now apply no_blacklist. }
  destruct (fetch_after_load v w url loaded) as (r & evs & Hp & Hrun).
  rewrite (Hrun st Hchrome Hload). unfold epilogue.
  destruct r as [l|e]; [|eapply aborted; eauto].
  destruct (truthy (content l)) eqn:Htruthy; [eapply succeeded; eauto|].
  destruct (writable st) eqn:Hw; [eapply exhausted | eapply unsaved]; eauto.
Qed.

(** ** Properties of the call *)

Lemma truthy_nonempty (s : string) : truthy s = true <-> s <> "".
Proof. destruct s; simpl; split; congruence. Qed.

Lemma round_event_not_save (evs : list event) (b : json) :
  Forall round_event evs -> ~ In (Save b) evs.
Proof.
  intros H Hin. rewrite List.Forall_forall in H. exact (H _ Hin).
Qed.

Lemma gets_rounds (t : list event) : List.length (rounds t) = gets t.
Proof.
  unfold rounds, gets. induction t as [|e t IH]; [reflexivity|].
  destruct e; simpl; auto.
Qed.

(** C1: when the call ends in the succeeded state (a non-empty text is
    returned), the configured marker is a string and the returned text
    contains it as a substring. *)
Theorem succeeded_text_contains_marker
    (v : pyobj) (w : world) (url : string) (st : store)
    (text : string) (σ' : state) :
  fetch_content_through_proxy v w url (boot st) = (Val text, σ') ->
  text <> "" ->
  exists marker pre post,
    v = PyStr marker /\ text = pre +:+ marker +:+ post.
Proof.
  intros Hrun Hne. pose proof (fetch_exit_path v w url st) as Hp.
  rewrite Hrun in Hp. inversion Hp as [| | |loaded evs l _ _ Hpost Ht| loaded evs l _ _ _ Ht|]; subst.
  - destruct (ap_locals _ _ _ _ _ Hpost) as (_ & _ & [Hc|Hc]).
    + simpl in Hc. congruence.
    + apply verification_condition_true in Hc as (marker & -> & Hc).
      apply contains_spec in Hc as (pre & post & Hc).
      now exists marker, pre, post.
  - apply truthy_nonempty in Hne. congruence.
Qed.

Lemma succeeded_text_contains_marker_witness :
  exists marker pre post,
    PyStr "PAGE-OK" = PyStr marker /\
    "header PAGE-OK footer" = pre +:+ marker +:+ post.
Proof.
  apply (succeeded_text_contains_marker (PyStr "PAGE-OK") second_relay_works
           "https://example.com" no_file "header PAGE-OK footer"
           (State no_file [Launch; Get; Consent; Found 2; Select "r1";
                           Rejected "r1"; Select "r2"; Quit])).
  - reflexivity.
  - discriminate.
Defined.

Lemma load_from_boot (st : store) (loaded : json) :
  load_bad_servers (boot st) = (Val loaded, boot st) ->
  load_result st = Val loaded.
Proof. rewrite load_bad_servers_run. simpl. congruence. Qed.

(** C3: when the call ends in the succeeded state, the backing file is what
    it was before the call and no save was performed, whatever was rejected
    on the way. *)
Theorem succeeded_call_leaves_file
    (v : pyobj) (w : world) (url : string) (st : store)
    (text : string) (σ' : state) :
  fetch_content_through_proxy v w url (boot st) = (Val text, σ') ->
  text <> "" ->
  fs σ' = st /\ forall b, ~ In (Save b) (trace σ').
Proof.
  intros Hrun Hne. pose proof (fetch_exit_path v w url st) as Hp.
  rewrite Hrun in Hp.
  inversion Hp as [| | |loaded evs l _ _ Hpost Ht|loaded evs l _ _ _ Ht|]; subst.
  - split; [reflexivity|]. simpl. intros b [Hb|Hb]; [discriminate|].
    apply in_app_iff in Hb as [Hb|Hb].
    + exact (round_event_not_save _ _ (ap_events _ _ _ _ _ Hpost) Hb).
    + simpl in Hb. intuition discriminate.
  - apply truthy_nonempty in Hne. congruence.
Qed.

Lemma succeeded_call_leaves_file_witness :
  fs (State no_file [Launch; Get; Consent; Found 2; Select "r1";
                     Rejected "r1"; Select "r2"; Quit]) = no_file /\
  forall b, ~ In (Save b) [Launch; Get; Consent; Found 2; Select "r1";
                          Rejected "r1"; Select "r2"; Quit].
Proof.
  apply (succeeded_call_leaves_file (PyStr "PAGE-OK") second_relay_works
           "https://example.com" no_file "header PAGE-OK footer"
           (State no_file [Launch; Get; Consent; Found 2; Select "r1";
                           Rejected "r1"; Select "r2"; Quit])).
  - reflexivity.
  - discriminate.
Defined.

(** C4: an endpoint listed in the blacklist loaded at the start of the call
    is never selected during the call, in any round and on any exit path. *)
Theorem blacklisted_never_selected
    (v : pyobj) (w : world) (url : string) (st : store)
    (loaded : json) (c : string) :
  load_bad_servers (boot st) = (Val loaded, boot st) ->
  listed loaded c ->
  ~ In (Select c) (trace (snd (fetch_content_through_proxy v w url (boot st)))).
Proof.
  intros Hl Hc. apply load_from_boot in Hl.
  assert (Hevs : forall evs r,
            attempt_post v (seq 0 5) (Locals loaded "") evs r ->
            ~ In (Select c) (Launch :: evs ++ [Quit])).
  { intros evs r Hpost [Hin|Hin]; [discriminate|].
    apply in_app_iff in Hin as [Hin|Hin].
    - exact (ap_fresh _ _ _ _ _ Hpost c Hin Hc).
    - simpl in Hin. intuition discriminate. }
  destruct (fetch_exit_path v w url st)
    as [e _|e _ _|ld evs e _ Hld Hpost|ld evs l _ Hld Hpost _
       |ld evs l _ Hld Hpost _ _|ld evs l _ Hld Hpost _ _]; simpl;
    try (assert (ld = loaded) as -> by congruence); eauto.
  - intuition discriminate.
  - intros [Hin|Hin]; [discriminate|].
    apply in_app_iff in Hin as [Hin|Hin].
    + exact (ap_fresh _ _ _ _ _ Hpost c Hin Hc).
    + simpl in Hin. intuition discriminate.
Qed.

Lemma blacklisted_never_selected_witness :
  ~ In (Select "r1")
       (trace (snd (fetch_content_through_proxy (PyStr "PAGE-OK")
                      second_relay_works "https://example.com"
                      (boot r1_known_bad)))).
Proof.
  apply (blacklisted_never_selected (PyStr "PAGE-OK") second_relay_works
           "https://example.com" r1_known_bad (JDict {["r1" := JInt 1]}) "r1").
  - reflexivity.
  - vm_compute. reflexivity.
Defined.

(** C5, as stated, fails: with a backing file that holds malformed content,
    [load_bad_servers] raises the decode error; no empty mapping is
    returned. *)
Lemma load_garbled_file_raises :
  fst (load_bad_servers (boot garbled_file)) = Exc JSONDecodeError /\
  fst (load_bad_servers (boot garbled_file)) <> Val (JDict ∅).
Proof. split; [reflexivity | discriminate]. Qed.

(** C5, amended: [load_bad_servers] returns the empty mapping when the
    backing file is absent, and the call then runs as it does on a stored
    empty mapping; it returns the decoded document when the file holds one;
    in every other state of the file it fails, with the error of the open
    (a directory, a file that may not be read) or of the decoding (bytes
    that are not text, text that is not JSON, a document nested too deep),
    and no empty mapping is returned.  The store is left as it was in every
    case. *)
Theorem load_by_file_state (σ : state) (v : pyobj) (w : world) (url : string)
    (can_write : bool) :
  load_bad_servers σ =
    (match backing (fs σ) with
     | Absent => Val (JDict ∅)
     | Holds (Json document) => Val document
     | Directory => Exc IsADirectoryError
     | Locked => Exc PermissionError
     | Holds NotText => Exc UnicodeDecodeError
     | Holds NotJson => Exc JSONDecodeError
     | Holds TooDeep => Exc RecursionError
     end, σ) /\
  fst (fetch_content_through_proxy v w url (boot (Store Absent can_write))) =
  fst (fetch_content_through_proxy v w url
         (boot (Store (Holds (Json (JDict ∅))) can_write))) /\
  trace (snd (fetch_content_through_proxy v w url
                (boot (Store Absent can_write)))) =
  trace (snd (fetch_content_through_proxy v w url
                (boot (Store (Holds (Json (JDict ∅))) can_write)))).
Proof.
  split.
  { rewrite load_bad_servers_run. unfold load_result.
    now destruct (backing (fs σ)) as [| | |[| | |document]]. }
  destruct (chrome w) as [e|] eqn:Hchrome.
  { unfold fetch_content_through_proxy, initialize_webdriver.
    rewrite Hchrome. now unfold bind, raise. }
  destruct (fetch_after_load v w url (JDict ∅)) as (r & evs & _ & Hrun).
  rewrite !Hrun by (auto; reflexivity).
  unfold epilogue. simpl writable.
  destruct r as [l|e]; [|now split].
  destruct (truthy (content l)); [now split|].
  destruct can_write; now split.
Qed.

(** C6 fails on the code: with a browser that starts and a backing file that
    holds malformed content, the call leaves by the decode error raised
    before the [try], and the browser that was launched is never quit. *)
Theorem browser_left_running_when_load_raises :
  fst (fetch_content_through_proxy DATA_VERIFIER_literal second_relay_works
         "https://example.com" (boot garbled_file))
    = Exc JSONDecodeError /\
  launches (trace (snd (fetch_content_through_proxy DATA_VERIFIER_literal
                          second_relay_works "https://example.com"
                          (boot garbled_file)))) = 1 /\
  quits (trace (snd (fetch_content_through_proxy DATA_VERIFIER_literal
                       second_relay_works "https://example.com"
                       (boot garbled_file)))) = 0.
Proof. repeat split. Qed.

(** Once the blacklist is loaded, every exit path quits the browser once. *)
Lemma quit_once_after_load (v : pyobj) (w : world) (url : string) (st : store)
    (loaded : json) :
  chrome w = None -> load_result st = Val loaded ->
  quits (trace (snd (fetch_content_through_proxy v w url (boot st)))) = 1.
Proof.
  intros Hchrome Hload.
  assert (Hq : forall evs tail, Forall round_event evs ->
            quits (Launch :: evs ++ tail) = quits tail).
  { intros evs tail Hevs. unfold quits. simpl. rewrite List.filter_app, length_app.
    induction Hevs as [|e evs He _ IH]; [reflexivity|].
    destruct e; try contradiction; simpl in *; exact IH. }
  destruct (fetch_exit_path v w url st)
    as [e He|e _ He|ld evs e _ _ Hpost|ld evs l _ _ Hpost _
       |ld evs l _ _ Hpost _ _|ld evs l _ _ Hpost _ _]; try congruence;
    cbn [snd trace]; rewrite (Hq _ _ (ap_events _ _ _ _ _ Hpost)); reflexivity.
Qed.

(** C7: the call returns or raises after at most [MAX_ROUNDS] navigations to
    the entry page, and in each navigation cycle the candidates selected and
    the candidates skipped as blacklisted together number at most the
    options enumerated in that cycle. *)
Theorem rounds_and_candidates_bounded
    (v : pyobj) (w : world) (url : string) (st : store) :
  exists r σ',
    fetch_content_through_proxy v w url (boot st) = (r, σ') /\
    gets (trace σ') <= MAX_ROUNDS /\
    Forall (fun round => skips round <= found round /\
                         selects round <= found round - skips round)
           (rounds (trace σ')).
Proof.
  exists (fst (fetch_content_through_proxy v w url (boot st))),
         (snd (fetch_content_through_proxy v w url (boot st))).
  split; [now destruct (fetch_content_through_proxy v w url (boot st))|].
  rewrite <- gets_rounds.
  assert (Hweak : forall ts, Forall round_ok ts ->
            Forall (fun round => skips round <= found round /\
                                 selects round <= found round - skips round) ts).
  { intros ts Hts. eapply Forall_impl; [exact Hts|].
    unfold round_ok. intros round. lia. }
  assert (Hb : forall evs tail,
            rounds_bounded 5 evs -> Forall quiet_event tail ->
            List.length (rounds (Launch :: evs ++ tail)) <= MAX_ROUNDS /\
            Forall (fun round => skips round <= found round /\
                                 selects round <= found round - skips round)
                   (rounds (Launch :: evs ++ tail))).
  { intros evs tail Hrb Htail.
    destruct (Hrb tail Htail) as (_ & Hlen & Hok).
    unfold rounds in *. simpl. split; [exact Hlen | now apply Hweak]. }
  destruct (fetch_exit_path v w url st)
    as [e He|e _ He|ld evs e _ _ Hpost|ld evs l _ _ Hpost _
       |ld evs l _ _ Hpost _ _|ld evs l _ _ Hpost _ _]; cbn [snd trace].
  - unfold rounds. simpl. split; [unfold MAX_ROUNDS; lia | constructor].
  - unfold rounds. simpl. split; [unfold MAX_ROUNDS; lia | constructor].
  - apply Hb; [exact (ap_rounds _ _ _ _ _ Hpost) | repeat constructor].
  - apply Hb; [exact (ap_rounds _ _ _ _ _ Hpost) | repeat constructor].
  - apply (Hb evs [Save (bad_servers l); Quit]);
      [exact (ap_rounds _ _ _ _ _ Hpost) | repeat constructor].
  - apply Hb; [exact (ap_rounds _ _ _ _ _ Hpost) | repeat constructor].
Qed.

(** C8: the condition as the source writes it, the same containment test on
    both sides of [or], gives on every marker object and every text the
    result of the single containment check, raised errors included. *)
Theorem duplicated_condition_is_single_check (v : pyobj) (text : string) :
  verification_condition v text = single_containment_check v text.
Proof.
  unfold verification_condition, single_containment_check, py_or.
  destruct (py_in_str v text) as [[|]|e]; reflexivity.
Qed.

(** C9: [load_bad_servers] leaves the state as it found it, and a second
    load right after the first gives the same outcome. *)
Theorem load_twice_same (σ : state) :
  snd (load_bad_servers σ) = σ /\
  load_bad_servers (snd (load_bad_servers σ)) = load_bad_servers σ.
Proof.
  rewrite !load_bad_servers_run. simpl. now split.
Qed.

Lemma launch_tail_order (evs tail : list event) :
  no_reselect evs -> Forall quiet_event tail ->
  no_reselect (Launch :: evs ++ tail).
Proof.
  intros Hevs Htail. simpl. split; [discriminate|].
  assert (Hplain : forall e, In e tail -> forall c, e <> Rejected c /\ e <> Select c).
  { rewrite List.Forall_forall in Htail. intros e He c.
    specialize (Htail e He). destruct e; try contradiction; split; discriminate. }
  apply no_reselect_app; [exact Hevs | |].
  - apply no_reselect_quiet. apply List.Forall_forall.
    intros e He c. apply (Hplain e He c).
  - intros c _ Hsel. now destruct (Hplain _ Hsel c).
Qed.

(** C10: once an endpoint has been rejected in the course of a call (it
    failed verification and was added to the in-memory blacklist), it is not
    selected again in what follows of that call, whether the call then
    succeeds, is exhausted or raises. *)
Theorem rejected_never_selected_again
    (v : pyobj) (w : world) (url : string) (st : store)
    (before after : list event) (c : string) :
  trace (snd (fetch_content_through_proxy v w url (boot st)))
    = before ++ Rejected c :: after ->
  ~ In (Select c) after.
Proof.
  intros Htrace. apply (no_reselect_split before). rewrite <- Htrace.
  destruct (fetch_exit_path v w url st)
    as [e He|e _ He|ld evs e _ _ Hpost|ld evs l _ _ Hpost _
       |ld evs l _ _ Hpost _ _|ld evs l _ _ Hpost _ _]; cbn [snd trace boot].
  - exact I.
  - simpl. split; [discriminate | exact I].
  - apply launch_tail_order; [exact (ap_order _ _ _ _ _ Hpost) | repeat constructor].
  - apply launch_tail_order; [exact (ap_order _ _ _ _ _ Hpost) | repeat constructor].
  - apply launch_tail_order; [exact (ap_order _ _ _ _ _ Hpost) | repeat constructor].
  - apply launch_tail_order; [exact (ap_order _ _ _ _ _ Hpost) | repeat constructor].
Qed.

Lemma rejected_never_selected_again_witness :
  ~ In (Select "r1")
       [Get; Consent; Found 2; Skip "r1"; Select "r2"; Quit].
Proof.
  apply (rejected_never_selected_again (PyStr "PAGE-OK") relay_appears_later
           "https://example.com" no_file
           [Launch; Get; Consent; Found 1; Select "r1"]
           [Get; Consent; Found 2; Skip "r1"; Select "r2"; Quit] "r1").
  reflexivity.
Defined.

(** With the marker object as the module defines it, a set, the containment
    test raises on every text. *)
Lemma literal_marker_raises (text : string) :
  verification_condition DATA_VERIFIER_literal text = Exc TypeError.
Proof. reflexivity. Qed.

(** ** The loops as relations: agreement with the functions *)

Lemma runs_unique {A} (m : M A) (r r' : res A) (evs evs' : list event) :
  runs m r evs -> runs m r' evs' -> r = r' /\ evs = evs'.
Proof.
  intros H H'. specialize (H (boot no_file)). specialize (H' (boot no_file)).
  unfold emits in *. rewrite H in H'. simpl in H'. now inversion H'.
Qed.

Lemma elem_trace_runs (v : pyobj) (url : string) (elems : list option_elem)
    (l : locals) (r : res locals) (evs : list event) :
  elem_trace v url elems l r evs -> runs (for_elem v url elems l) r evs.
Proof.
  induction 1 as [l|elem rest l e Hd|elem rest l code e Hd Hin
                 |elem rest l code r evs Hd Hin _ IH
                 |elem rest l code e Hd Hin Hsub
                 |elem rest l code text e Hd Hin Hsub Hver
                 |elem rest l code text Hd Hin Hsub Hver
                 |elem rest l code text e Hd Hin Hsub Hver Hset
                 |elem rest l code text bad r evs Hd Hin Hsub Hver Hset _ IH];
    try (now run_body).
  - intros σ. unfold emits. simpl. unfold bind, lift, emit. rewrite Hd, Hin.
    rewrite IH. simpl. now rewrite <- app_assoc.
  - intros σ. unfold emits. simpl. unfold bind, lift, emit, submit, ret.
    rewrite Hd, Hin. simpl. rewrite Hsub, Hver, Hset. simpl.
    rewrite IH. simpl. now rewrite <- !app_assoc.
Qed.

Lemma elem_trace_total (v : pyobj) (url : string) (elems : list option_elem) :
  forall l, exists r evs, elem_trace v url elems l r evs.
Proof.
  induction elems as [|elem rest IH]; intros l.
  - eauto using et_done.
  - destruct (data_value elem) as [code|e] eqn:Hd;
      [|eauto using et_attribute_raises].
    destruct (py_in_json code (bad_servers l)) as [[|]|e] eqn:Hin;
      [|   |eauto using et_membership_raises].
    + destruct (IH l) as (r & evs & H). eauto using et_skip.
    + destruct (after_submit elem url) as [e|text] eqn:Hsub;
        [eauto using et_broken|].
      destruct (verification_condition v text) as [[|]|e] eqn:Hver;
        [eauto using et_break|   |eauto using et_test_raises].
      destruct (py_setitem (bad_servers l) code) as [bad|e] eqn:Hset;
        [|eauto using et_setitem_raises].
      destruct (IH (Locals bad (content l))) as (r & evs & H).
      eauto using et_reject.
Qed.

Lemma attempt_trace_runs (v : pyobj) (w : world) (url : string)
    (attempts : list nat) (l : locals) (r : res locals) (evs : list event) :
  attempt_trace v w url attempts l r evs ->
  runs (for_attempt v w url attempts l) r evs.
Proof.
  assert (Hbody : forall attempt rest l consent elems r1 inner σ,
            proxyium w attempt = Loaded consent elems ->
            runs (for_elem v url elems l) r1 inner ->
            for_attempt v w url (attempt :: rest) l σ =
            match r1 with
            | Val l1 =>
                if truthy (content l1)
                then (Val l1, State (fs σ) (trace σ ++
                        round_head consent (List.length elems) ++ inner))
                else for_attempt v w url rest l1
                       (State (fs σ) (trace σ ++
                          round_head consent (List.length elems) ++ inner))
            | Exc e => (Exc e, State (fs σ) (trace σ ++
                          round_head consent (List.length elems) ++ inner))
            end).
  { intros attempt rest l0 consent elems r1 inner σ Hpage Hinner.
    simpl. unfold bind at 1, emit at 1.
    rewrite Hpage. unfold bind at 1.
    rewrite (click_consent_emits consent). simpl fs. simpl trace.
    unfold bind at 1, emit at 1. simpl fs. simpl trace.
    unfold bind at 1. rewrite Hinner. simpl fs. simpl trace.
    unfold round_head. simpl. rewrite <- !app_assoc. simpl.
    destruct r1 as [l1|e]; [|reflexivity].
    unfold ret. now destruct (truthy (content l1)). }
  induction 1 as [l|attempt rest l e Hpage|attempt rest l consent e Hpage
                 |attempt rest l consent elems e inner Hpage Hinner
                 |attempt rest l consent elems l1 inner Hpage Hinner Ht
                 |attempt rest l consent elems l1 inner r more Hpage Hinner Ht _ IH];
    intros σ; unfold emits.
  - simpl. unfold ret. now rewrite state_eta.
  - simpl. unfold bind, emit. now rewrite Hpage.
  - simpl. unfold bind at 1, emit at 1. rewrite Hpage. unfold bind at 1.
    rewrite (click_consent_emits consent). simpl. now rewrite <- app_assoc.
  - now rewrite (Hbody _ _ _ _ _ _ _ _ Hpage (elem_trace_runs _ _ _ _ _ _ Hinner)).
  - rewrite (Hbody _ _ _ _ _ _ _ _ Hpage (elem_trace_runs _ _ _ _ _ _ Hinner)).
    now rewrite Ht.
  - rewrite (Hbody _ _ _ _ _ _ _ _ Hpage (elem_trace_runs _ _ _ _ _ _ Hinner)).
    rewrite Ht, IH. cbn [fs trace]. now rewrite <- !app_assoc.
Qed.

Lemma attempt_trace_total (v : pyobj) (w : world) (url : string)
    (attempts : list nat) :
  forall l, exists r evs, attempt_trace v w url attempts l r evs.
Proof.
  induction attempts as [|attempt rest IH]; intros l.
  - eauto using at_done.
  - destruct (proxyium w attempt) as [e|consent e|consent elems] eqn:Hpage;
      [eauto using at_get_fails | eauto using at_form_missing |].
    destruct (elem_trace_total v url elems l) as ([l1|e] & inner & Hinner);
      [|eauto using at_loop_raises].
    destruct (truthy (content l1)) eqn:Ht; [eauto using at_found|].
    destruct (IH l1) as (r & more & Hmore). eauto using at_next.
Qed.

(** A derivation for the five rounds fixes what the whole call does. *)
Lemma fetch_by_trace (v : pyobj) (w : world) (url : string) (st : store)
    (loaded : json) (r : res locals) (evs : list event) :
  attempt_trace v w url (seq 0 5) (Locals loaded "") r evs ->
  chrome w = None -> load_result st = Val loaded ->
  fetch_content_through_proxy v w url (boot st) = epilogue st r evs.
Proof.
  intros Htrace Hchrome Hload. apply attempt_trace_runs in Htrace.
  destruct (fetch_after_load v w url loaded) as (r' & evs' & _ & Hrun).
  rewrite (Hrun st Hchrome Hload).
  destruct (for_attempt_emits v w url (seq 0 5) (Locals loaded ""))
    as (r2 & evs2 & Hrun2 & _).
  assert (Hsame : epilogue st r' evs' = epilogue st r2 evs2).
  { rewrite <- (Hrun st Hchrome Hload).
    unfold fetch_content_through_proxy, initialize_webdriver. rewrite Hchrome.
    unfold bind at 1, emit at 1. unfold bind at 1.
    rewrite load_bad_servers_run. cbn [fs trace boot]. rewrite Hload.
    unfold try_finally, bind at 1. rewrite Hrun2. cbn [fs trace].
    unfold epilogue. destruct r2 as [l|e]; [|reflexivity].
    unfold bind at 1.
    destruct (truthy (content l)) eqn:Htruthy; [reflexivity|].
    rewrite (save_after_load st loaded _ _ Hload).
    destruct (writable st) eqn:Hw; [|reflexivity].
    unfold ret, emit. cbn [fs trace]. now rewrite <- app_assoc. }
  rewrite Hsame.
  destruct (runs_unique _ _ _ _ _ Htrace Hrun2) as [-> ->]. reflexivity.
Qed.

Lemma attempt_trace_post (v : pyobj) (w : world) (url : string)
    (attempts : list nat) (l : locals) (r : res locals) (evs : list event) :
  attempt_trace v w url attempts l r evs -> attempt_post v attempts l evs r.
Proof.
  intros Htrace. apply attempt_trace_runs in Htrace.
  destruct (for_attempt_emits v w url attempts l) as (r' & evs' & Hrun & Hp).
  now destruct (runs_unique _ _ _ _ _ Htrace Hrun) as [-> ->].
Qed.

(** ** Where selections, rejections and results come from *)

(** Induction on a derivation of the candidate loop, with fixed names. *)
Ltac elem_trace_cases H :=
  induction H as [l|elem rest l e Hd|elem rest l code e Hd Hin
                 |elem rest l code r evs Hd Hin Hlater IH
                 |elem rest l code e Hd Hin Hsub
                 |elem rest l code text e Hd Hin Hsub Hver
                 |elem rest l code text Hd Hin Hsub Hver
                 |elem rest l code text e Hd Hin Hsub Hver Hset
                 |elem rest l code text bad r evs Hd Hin Hsub Hver Hset
                    Hlater IH].

Lemma elem_select_enumerated (v : pyobj) (url : string)
    (elems : list option_elem) (l : locals) (r : res locals)
    (evs : list event) (c : string) :
  elem_trace v url elems l r evs -> In (Select c) evs ->
  exists elem, In elem elems /\ data_value elem = Val c.
Proof.
  intros H. elem_trace_cases H; simpl; intros Hc.
  - destruct Hc.
  - destruct Hc.
  - destruct Hc.
  - destruct Hc as [Hc|Hc]; [discriminate|].
    destruct (IH Hc) as (elem' & Hin' & Hd'). eauto.
  - destruct Hc as [[= <-]|[]]. eauto.
  - destruct Hc as [[= <-]|[]]. eauto.
  - destruct Hc as [[= <-]|[]]. eauto.
  - destruct Hc as [[= <-]|[]]. eauto.
  - destruct Hc as [[= <-]|[Hc|Hc]]; [eauto | discriminate |].
    destruct (IH Hc) as (elem' & Hin' & Hd'). eauto.
Qed.

Lemma elem_reject_failed (v : pyobj) (url : string)
    (elems : list option_elem) (l : locals) (r : res locals)
    (evs : list event) (c : string) :
  elem_trace v url elems l r evs -> In (Rejected c) evs ->
  exists elem text,
    In elem elems /\ data_value elem = Val c /\
    after_submit elem url = Rendered text /\
    verification_condition v text = Val false.
Proof.
  intros H. elem_trace_cases H; simpl; intros Hc.
  - destruct Hc.
  - destruct Hc.
  - destruct Hc.
  - destruct Hc as [Hc|Hc]; [discriminate|].
    destruct (IH Hc) as (elem' & text' & Hin' & Hrest).
    exists elem', text'. split; [now right | exact Hrest].
  - destruct Hc as [Hc|[]]. discriminate.
  - destruct Hc as [Hc|[]]. discriminate.
  - destruct Hc as [Hc|[]]. discriminate.
  - destruct Hc as [Hc|[]]. discriminate.
  - destruct Hc as [Hc|[[= <-]|Hc]]; [discriminate | |].
    + exists elem, text. repeat split; auto.
    + destruct (IH Hc) as (elem' & text' & Hin' & Hrest).
      exists elem', text'. split; [now right | exact Hrest].
Qed.

Lemma elem_result_rendered (v : pyobj) (url : string)
    (elems : list option_elem) (l : locals) (r : res locals)
    (evs : list event) :
  elem_trace v url elems l r evs ->
  forall l', r = Val l' ->
  content l' = content l \/
  exists before elem c,
    evs = before ++ [Select c] /\
    In elem elems /\ data_value elem = Val c /\
    after_submit elem url = Rendered (content l').
Proof.
  intros H. elem_trace_cases H; intros l' Hr; try discriminate Hr.
  - injection Hr as <-. now left.
  - destruct (IH l' Hr) as [Hc|(before & elem' & c & -> & Hin' & Hd' & Hsub')];
      [now left|].
    right. exists (Skip code :: before), elem', c. repeat split; auto; now right.
  - injection Hr as <-. right. exists [], elem, code. simpl.
    repeat split; auto.
  - destruct (IH l' Hr) as [Hc|(before & elem' & c & -> & Hin' & Hd' & Hsub')];
      [now left|].
    right. exists (Select code :: Rejected code :: before), elem', c.
    repeat split; auto; now right.
Qed.

Lemma listed_setitem_only (bad bad' : json) (code c : string) :
  py_setitem bad code = Val bad' -> listed bad' c -> c = code \/ listed bad c.
Proof.
  destruct bad; simpl; try discriminate.
  intros [= <-]. unfold listed. simpl. intros [= H].
  apply bool_decide_eq_true in H.
  destruct (decide (code = c)) as [->|Hne]; [now left|].
  right. f_equal. apply bool_decide_eq_true. now rewrite lookup_insert_ne in H.
Qed.

Lemma elem_listed_only (v : pyobj) (url : string)
    (elems : list option_elem) (l : locals) (r : res locals)
    (evs : list event) :
  elem_trace v url elems l r evs ->
  forall l' c, r = Val l' -> listed (bad_servers l') c ->
  listed (bad_servers l) c \/ In (Rejected c) evs.
Proof.
  intros H. elem_trace_cases H; intros l' c Hr Hl; try discriminate Hr.
  - injection Hr as <-. now left.
  - destruct (IH l' c Hr Hl) as [Hc|Hc]; [now left | right; now right].
  - injection Hr as <-. now left.
  - destruct (IH l' c Hr Hl) as [Hc|Hc].
    + simpl in Hc. destruct (listed_setitem_only _ _ _ _ Hset Hc) as [->|Hc'].
      * right. simpl. auto.
      * now left.
    + right. simpl. auto.
Qed.

(** Induction on a derivation of the round loop, with fixed names. *)
Ltac attempt_trace_cases H :=
  induction H as [l|attempt rest l e Hpage|attempt rest l consent e Hpage
                 |attempt rest l consent elems e inner Hpage Hinner
                 |attempt rest l consent elems l1 inner Hpage Hinner Ht
                 |attempt rest l consent elems l1 inner r more Hpage Hinner Ht
                    Hmore IH].

Lemma in_round (consent : bool) (n : nat) (inner more : list event) (e : event) :
  (exists c, e = Select c \/ e = Rejected c) ->
  In e (round_head consent n ++ inner ++ more) -> In e inner \/ In e more.
Proof.
  intros (c & He) Hin.
  destruct (round_head_plain consent n) as [_ Hplain].
  rewrite List.Forall_forall in Hplain.
  apply in_app_iff in Hin as [Hin|Hin].
  - destruct (Hplain _ Hin c) as [H1 H2]. destruct He; congruence.
  - now apply in_app_iff in Hin.
Qed.

Lemma in_round_last (consent : bool) (n : nat) (inner : list event) (e : event) :
  (exists c, e = Select c \/ e = Rejected c) ->
  In e (round_head consent n ++ inner) -> In e inner.
Proof.
  intros He Hin. rewrite <- (app_nil_r inner) in Hin.
  destruct (in_round _ _ _ _ _ He Hin) as [H|[]]. exact H.
Qed.

Lemma in_consent_head (consent : bool) (e : event) :
  (exists c, e = Select c \/ e = Rejected c) ->
  ~ In e (Get :: if consent then [Consent] else []).
Proof.
  intros (c & He) Hin. destruct consent; simpl in Hin;
    destruct He; subst; intuition discriminate.
Qed.

Lemma offered_here (w : world) (attempt : nat) (rest : list nat)
    (consent : bool) (elems : list option_elem) (elem : option_elem) :
  proxyium w attempt = Loaded consent elems -> In elem elems ->
  offered w (attempt :: rest) elem.
Proof. intros Hpage Hin. exists attempt, consent, elems. simpl. auto. Qed.

Lemma offered_later (w : world) (attempt : nat) (rest : list nat)
    (elem : option_elem) :
  offered w rest elem -> offered w (attempt :: rest) elem.
Proof.
  intros (a & consent & elems & Ha & Hrest). exists a, consent, elems.
  simpl. auto.
Qed.

Lemma attempt_select_offered (v : pyobj) (w : world) (url : string)
    (attempts : list nat) (l : locals) (r : res locals) (evs : list event)
    (c : string) :
  attempt_trace v w url attempts l r evs -> In (Select c) evs ->
  exists elem, offered w attempts elem /\ data_value elem = Val c.
Proof.
  intros H. attempt_trace_cases H; intros Hc.
  - destruct Hc.
  - destruct Hc as [Hc|[]]. discriminate.
  - now apply in_consent_head in Hc; eauto.
  - apply in_round_last in Hc; eauto.
    destruct (elem_select_enumerated _ _ _ _ _ _ _ Hinner Hc) as (elem & Hin & Hd).
    eauto using offered_here.
  - apply in_round_last in Hc; eauto.
    destruct (elem_select_enumerated _ _ _ _ _ _ _ Hinner Hc) as (elem & Hin & Hd).
    eauto using offered_here.
  - apply in_round in Hc as [Hc|Hc]; eauto.
    + destruct (elem_select_enumerated _ _ _ _ _ _ _ Hinner Hc)
        as (elem & Hin & Hd).
      eauto using offered_here.
    + destruct (IH Hc) as (elem & Hoff & Hd). eauto using offered_later.
Qed.

Lemma attempt_reject_failed (v : pyobj) (w : world) (url : string)
    (attempts : list nat) (l : locals) (r : res locals) (evs : list event)
    (c : string) :
  attempt_trace v w url attempts l r evs -> In (Rejected c) evs ->
  exists elem text,
    offered w attempts elem /\ data_value elem = Val c /\
    after_submit elem url = Rendered text /\
    verification_condition v text = Val false.
Proof.
  intros H. attempt_trace_cases H; intros Hc.
  - destruct Hc.
  - destruct Hc as [Hc|[]]. discriminate.
  - now apply in_consent_head in Hc; eauto.
  - apply in_round_last in Hc; eauto.
    destruct (elem_reject_failed _ _ _ _ _ _ _ Hinner Hc)
      as (elem & text & Hin & Hrest).
    exists elem, text. split; [eauto using offered_here | exact Hrest].
  - apply in_round_last in Hc; eauto.
    destruct (elem_reject_failed _ _ _ _ _ _ _ Hinner Hc)
      as (elem & text & Hin & Hrest).
    exists elem, text. split; [eauto using offered_here | exact Hrest].
  - apply in_round in Hc as [Hc|Hc]; eauto.
    + destruct (elem_reject_failed _ _ _ _ _ _ _ Hinner Hc)
        as (elem & text & Hin & Hrest).
      exists elem, text. split; [eauto using offered_here | exact Hrest].
    + destruct (IH Hc) as (elem & text & Hoff & Hrest).
      exists elem, text. split; [eauto using offered_later | exact Hrest].
Qed.

Lemma attempt_result_rendered (v : pyobj) (w : world) (url : string)
    (attempts : list nat) (l : locals) (r : res locals) (evs : list event) :
  attempt_trace v w url attempts l r evs ->
  forall l', r = Val l' -> truthy (content l') = true ->
  content l' = content l \/
  exists before elem c,
    evs = before ++ [Select c] /\
    offered w attempts elem /\ data_value elem = Val c /\
    after_submit elem url = Rendered (content l').
Proof.
  intros H. attempt_trace_cases H; intros l' Hr Htrue; try discriminate Hr.
  - injection Hr as <-. now left.
  - injection Hr as <-.
    destruct (elem_result_rendered _ _ _ _ _ _ Hinner l1 eq_refl)
      as [Hc|(before & elem & c & -> & Hin & Hd & Hsub)]; [now left|].
    right. exists (round_head consent (List.length elems) ++ before), elem, c.
    rewrite <- app_assoc. repeat split; eauto using offered_here.
  - destruct (IH l' Hr Htrue)
      as [Hc|(before & elem & c & -> & Hoff & Hd & Hsub)]; [congruence|].
    right.
    exists (round_head consent (List.length elems) ++ inner ++ before), elem, c.
    rewrite <- !app_assoc. repeat split; eauto using offered_later.
Qed.

Lemma attempt_listed_only (v : pyobj) (w : world) (url : string)
    (attempts : list nat) (l : locals) (r : res locals) (evs : list event) :
  attempt_trace v w url attempts l r evs ->
  forall l' c, r = Val l' -> listed (bad_servers l') c ->
  listed (bad_servers l) c \/ In (Rejected c) evs.
Proof.
  intros H. attempt_trace_cases H; intros l' c Hr Hl; try discriminate Hr.
  - injection Hr as <-. now left.
  - injection Hr as <-.
    destruct (elem_listed_only _ _ _ _ _ _ Hinner l1 c eq_refl Hl) as [Hc|Hc];
      [now left|].
    right. apply in_app_iff. now right.
  - destruct (IH l' c Hr Hl) as [Hc|Hc].
    + destruct (elem_listed_only _ _ _ _ _ _ Hinner l1 c eq_refl Hc) as [Hc1|Hc1];
        [now left|].
      right. apply in_app_iff. right. apply in_app_iff. now left.
    + right. apply in_app_iff. right. apply in_app_iff. now right.
Qed.

(** ** The whole call, through the relation *)

Lemma fetch_trace_cases (v : pyobj) (w : world) (url : string) (st : store) :
  (exists e, chrome w = Some e /\
     fetch_content_through_proxy v w url (boot st) = (Exc e, boot st)) \/
  (exists e, chrome w = None /\ load_result st = Exc e /\
     fetch_content_through_proxy v w url (boot st) = (Exc e, State st [Launch])) \/
  (exists loaded r evs,
     chrome w = None /\ load_result st = Val loaded /\
     attempt_trace v w url (seq 0 5) (Locals loaded "") r evs /\
     fetch_content_through_proxy v w url (boot st) = epilogue st r evs).
Proof.
  destruct (chrome w) as [e|] eqn:Hchrome.
  { left. exists e. split; [reflexivity|].
    unfold fetch_content_through_proxy, initialize_webdriver. rewrite Hchrome.
    reflexivity. }
  right. destruct (load_result st) as [loaded|e] eqn:Hload.
  - right.
    destruct (attempt_trace_total v w url (seq 0 5) (Locals loaded ""))
      as (r & evs & Htrace).
    exists loaded, r, evs. repeat split; auto.
    now apply fetch_by_trace with (loaded := loaded).
  - left. exists e. repeat split; auto.
    unfold fetch_content_through_proxy, initialize_webdriver. rewrite Hchrome.
    unfold bind at 1, emit at 1. unfold bind at 1.
    rewrite load_bad_servers_run. cbn [fs trace boot]. now rewrite Hload.
Qed.

(** The trace of a call that got to its rounds: the launch, the rounds, then
    a save or not, then the quit. *)
Lemma epilogue_trace (st : store) (r : res locals) (evs : list event) :
  exists tail,
    trace (snd (epilogue st r evs)) = Launch :: evs ++ tail ++ [Quit] /\
    (tail = [] \/ exists b, tail = [Save b]).
Proof.
  unfold epilogue. destruct r as [l|e]; [|exists []; simpl; auto].
  destruct (truthy (content l)); [exists []; simpl; auto|].
  destruct (writable st); [|exists []; simpl; auto].
  exists [Save (bad_servers l)]. simpl. eauto.
Qed.

Lemma in_epilogue (st : store) (r : res locals) (evs : list event) (e : event) :
  (exists c, e = Select c \/ e = Rejected c) ->
  In e (trace (snd (epilogue st r evs))) <-> In e evs.
Proof.
  intros (c & He). destruct (epilogue_trace st r evs) as (tail & -> & Htail).
  simpl. rewrite in_app_iff, in_app_iff. simpl.
  split; [|tauto].
  intros [H|[H|[H|[H|[]]]]]; auto.
  - destruct He; subst; discriminate.
  - destruct Htail as [->|(b & ->)]; simpl in H; [tauto|].
    destruct H as [H|[]]. destruct He; subst; discriminate.
  - destruct He; subst; discriminate.
Qed.

Lemma offered_in_rounds (w : world) (elem : option_elem) :
  offered w (seq 0 5) elem ->
  exists attempt consent elems,
    attempt < MAX_ROUNDS /\ proxyium w attempt = Loaded consent elems /\
    In elem elems.
Proof.
  intros (attempt & consent & elems & Hin & Hrest).
  exists attempt, consent, elems. split; [|exact Hrest].
  apply in_seq in Hin. unfold MAX_ROUNDS. lia.
Qed.

Lemma verification_condition_false (v : pyobj) (text : string) :
  verification_condition v text = Val false ->
  exists marker, v = PyStr marker /\ contains marker text = false.
Proof.
  unfold verification_condition, py_or, py_in_str.
  destruct v as [s|elems]; [|discriminate].
  destruct (contains s text) eqn:E; [discriminate|].
  intros _. now exists s.
Qed.

(** X1: an endpoint is selected only if the site offered it, in one of the
    five attempts, as the [data-value] of an enumerated option. *)
Theorem selected_endpoint_was_offered
    (v : pyobj) (w : world) (url : string) (st : store) (c : string) :
  In (Select c) (trace (snd (fetch_content_through_proxy v w url (boot st)))) ->
  exists attempt consent elems elem,
    attempt < MAX_ROUNDS /\ proxyium w attempt = Loaded consent elems /\
    In elem elems /\ data_value elem = Val c.
Proof.
  intros Hc.
  destruct (fetch_trace_cases v w url st)
    as [(e & _ & Hrun)|[(e & _ & _ & Hrun)
       |(loaded & r & evs & _ & _ & Htrace & Hrun)]];
    rewrite Hrun in Hc.
  - destruct Hc.
  - simpl in Hc. intuition discriminate.
  - apply in_epilogue in Hc; eauto.
    destruct (attempt_select_offered _ _ _ _ _ _ _ _ Htrace Hc)
      as (elem & Hoff & Hd).
    destruct (offered_in_rounds _ _ Hoff) as (attempt & consent & elems & H).
    exists attempt, consent, elems, elem. tauto.
Qed.

Lemma selected_endpoint_was_offered_witness :
  exists attempt consent elems elem,
    attempt < MAX_ROUNDS /\
    proxyium second_relay_works attempt = Loaded consent elems /\
    In elem elems /\ data_value elem = Val "r2".
Proof.
  apply (selected_endpoint_was_offered (PyStr "PAGE-OK") second_relay_works
           "https://example.com" no_file "r2").
  vm_compute. tauto.
Defined.

(** X2: an endpoint is rejected (and so blacklisted) only after the page
    that an offered option rendered for the target URL was tested against a
    [str] marker and did not contain it. *)
Theorem rejected_endpoint_failed_test
    (v : pyobj) (w : world) (url : string) (st : store) (c : string) :
  In (Rejected c) (trace (snd (fetch_content_through_proxy v w url (boot st)))) ->
  exists attempt consent elems elem text marker,
    attempt < MAX_ROUNDS /\ proxyium w attempt = Loaded consent elems /\
    In elem elems /\ data_value elem = Val c /\
    after_submit elem url = Rendered text /\
    v = PyStr marker /\
    ~ exists pre post, text = pre +:+ marker +:+ post.
Proof.
  intros Hc.
  destruct (fetch_trace_cases v w url st)
    as [(e & _ & Hrun)|[(e & _ & _ & Hrun)
       |(loaded & r & evs & _ & _ & Htrace & Hrun)]];
    rewrite Hrun in Hc.
  - destruct Hc.
  - simpl in Hc. intuition discriminate.
  - apply in_epilogue in Hc; eauto.
    destruct (attempt_reject_failed _ _ _ _ _ _ _ _ Htrace Hc)
      as (elem & text & Hoff & Hd & Hsub & Hver).
    destruct (offered_in_rounds _ _ Hoff)
      as (attempt & consent & elems & Hlt & Hpage & Hin).
    apply verification_condition_false in Hver as (marker & -> & Hver).
    exists attempt, consent, elems, elem, text, marker.
    repeat split; auto.
    intros Hsubstr. apply contains_spec in Hsubstr. congruence.
Qed.

Lemma rejected_endpoint_failed_test_witness :
  exists attempt consent elems elem text marker,
    attempt < MAX_ROUNDS /\
    proxyium second_relay_works attempt = Loaded consent elems /\
    In elem elems /\ data_value elem = Val "r1" /\
    after_submit elem "https://example.com" = Rendered text /\
    PyStr "PAGE-OK" = PyStr marker /\
    ~ exists pre post, text = pre +:+ marker +:+ post.
Proof.
  apply (rejected_endpoint_failed_test (PyStr "PAGE-OK") second_relay_works
           "https://example.com" no_file "r1").
  vm_compute. tauto.
Defined.

(** X3: a call that returns a non-empty text stops at the selection that
    produced it: the trace ends with that selection followed by the quit,
    and the text is what the selected option, one the site offered, rendered
    for the target URL. *)
Theorem returned_text_was_rendered
    (v : pyobj) (w : world) (url : string) (st : store)
    (text : string) (σ' : state) :
  fetch_content_through_proxy v w url (boot st) = (Val text, σ') ->
  text <> "" ->
  exists before attempt consent elems elem c,
    trace σ' = before ++ [Select c; Quit] /\
    attempt < MAX_ROUNDS /\ proxyium w attempt = Loaded consent elems /\
    In elem elems /\ data_value elem = Val c /\
    after_submit elem url = Rendered text.
Proof.
  intros Hout Hne.
  destruct (fetch_trace_cases v w url st)
    as [(e & _ & Hrun)|[(e & _ & _ & Hrun)
       |(loaded & r & evs & _ & _ & Htrace & Hrun)]];
    rewrite Hrun in Hout; try discriminate Hout.
  unfold epilogue in Hout. destruct r as [l|e]; [|discriminate Hout].
  destruct (truthy (content l)) eqn:Ht.
  2:{ destruct (writable st); [|discriminate Hout].
      injection Hout as Hc _. apply truthy_nonempty in Hne. congruence. }
  injection Hout as Htext <-.
  destruct (attempt_result_rendered _ _ _ _ _ _ _ Htrace l eq_refl Ht)
    as [Hc|(before & elem & c & -> & Hoff & Hd & Hsub)].
  - simpl in Hc. congruence.
  - destruct (offered_in_rounds _ _ Hoff)
      as (attempt & consent & elems & Hlt & Hpage & Hin).
    exists (Launch :: before), attempt, consent, elems, elem, c.
    rewrite <- Htext. repeat split; auto.
    simpl. now rewrite <- app_assoc.
Qed.

Lemma returned_text_was_rendered_witness :
  exists before attempt consent elems elem c,
    [Launch; Get; Consent; Found 2; Select "r1"; Rejected "r1"; Select "r2"; Quit]
      = before ++ [Select c; Quit] /\
    attempt < MAX_ROUNDS /\
    proxyium second_relay_works attempt = Loaded consent elems /\
    In elem elems /\ data_value elem = Val c /\
    after_submit elem "https://example.com" = Rendered "header PAGE-OK footer".
Proof.
  apply (returned_text_was_rendered (PyStr "PAGE-OK") second_relay_works
           "https://example.com" no_file "header PAGE-OK footer"
           (State no_file [Launch; Get; Consent; Found 2; Select "r1";
                           Rejected "r1"; Select "r2"; Quit])).
  - reflexivity.
  - discriminate.
Defined.

(** X4: after a call that returned the empty text, the backing file lists
    exactly the endpoints of the blacklist loaded at the start and the
    endpoints rejected during the call: nothing else was written. *)
Theorem saved_blacklist_is_loaded_plus_rejected
    (v : pyobj) (w : world) (url : string) (st : store)
    (loaded : json) (σ' : state) :
  fetch_content_through_proxy v w url (boot st) = (Val "", σ') ->
  load_bad_servers (boot st) = (Val loaded, boot st) ->
  exists final,
    backing (fs σ') = Holds (Json final) /\
    forall c, listed final c <->
              listed loaded c \/ In (Rejected c) (trace σ').
Proof.
  intros Hout Hl. apply load_from_boot in Hl.
  destruct (fetch_trace_cases v w url st)
    as [(e & _ & Hrun)|[(e & _ & _ & Hrun)
       |(ld & r & evs & _ & Hload & Htrace & Hrun)]];
    rewrite Hrun in Hout; try discriminate Hout.
  assert (ld = loaded) as -> by congruence.
  assert (Hrej : forall c, In (Rejected c) (trace σ') <-> In (Rejected c) evs).
  { intros c. replace σ' with (snd (epilogue st r evs)) by now rewrite Hout.
    apply in_epilogue; eauto. }
  pose proof (attempt_trace_post _ _ _ _ _ _ _ Htrace) as Hpost.
  unfold epilogue in Hout. destruct r as [l|e]; [|discriminate Hout].
  destruct (truthy (content l)) eqn:Ht.
  { injection Hout as Hc _. rewrite Hc in Ht. discriminate Ht. }
  destruct (writable st); [|discriminate Hout].
  injection Hout as _ <-. exists (bad_servers l). split; [reflexivity|].
  destruct (ap_locals _ _ _ _ _ Hpost) as (Hmono & Hin & _).
  intros c. rewrite (Hrej c). split.
  - intros Hc. exact (attempt_listed_only _ _ _ _ _ _ _ Htrace l c eq_refl Hc).
  - intros [Hc|Hc]; [now apply Hmono | now apply Hin].
Qed.

Lemma saved_blacklist_is_loaded_plus_rejected_witness :
  exists final,
    backing (fs (snd (fetch_content_through_proxy (PyStr "PAGE-OK")
                        no_relay_works "https://example.com"
                        (boot r1_known_bad))))
      = Holds (Json final) /\
    forall c, listed final c <->
              listed (JDict {["r1" := JInt 1]}) c \/
              In (Rejected c)
                 (trace (snd (fetch_content_through_proxy (PyStr "PAGE-OK")
                                no_relay_works "https://example.com"
                                (boot r1_known_bad)))).
Proof.
  apply (saved_blacklist_is_loaded_plus_rejected (PyStr "PAGE-OK")
           no_relay_works "https://example.com" r1_known_bad).
  - vm_compute. reflexivity.
  - reflexivity.
Defined.

Lemma success_was_verified (v : pyobj) (w : world) (url : string) (st : store)
    (text : string) (σ' : state) :
  fetch_content_through_proxy v w url (boot st) = (Val text, σ') ->
  text <> "" ->
  verification_condition v text = Val true.
Proof.
  intros Hrun Hne. pose proof (fetch_exit_path v w url st) as Hp.
  rewrite Hrun in Hp.
  inversion Hp as [| | |loaded evs l _ _ Hpost Ht|loaded evs l _ _ _ Ht|]; subst.
  - destruct (ap_locals _ _ _ _ _ Hpost) as (_ & _ & [Hc|Hc]); [|exact Hc].
    simpl in Hc. congruence.
  - apply truthy_nonempty in Hne. congruence.
Qed.

Lemma shipped_marker_select_raises_elem (url : string)
    (elems : list option_elem) (l : locals) (r : res locals)
    (evs : list event) (c : string) :
  elem_trace DATA_VERIFIER_literal url elems l r evs -> In (Select c) evs ->
  exists e, r = Exc e.
Proof.
  intros H. elem_trace_cases H; simpl; intros Hc;
    try discriminate Hver; eauto; try tauto.
  destruct Hc as [Hc|Hc]; [discriminate | auto].
Qed.

Lemma shipped_marker_select_raises_attempt (w : world) (url : string)
    (attempts : list nat) (l : locals) (r : res locals)
    (evs : list event) (c : string) :
  attempt_trace DATA_VERIFIER_literal w url attempts l r evs ->
  In (Select c) evs -> exists e, r = Exc e.
Proof.
  intros H. attempt_trace_cases H; intros Hc; eauto.
  - destruct Hc.
  - apply in_round_last in Hc; eauto.
    eapply shipped_marker_select_raises_elem; eauto.
  - apply in_round in Hc as [Hc|Hc]; eauto.
    destruct (shipped_marker_select_raises_elem _ _ _ _ _ _ Hinner Hc) as (e & He).
    discriminate He.
Qed.

Lemma no_rejections (t : list event) :
  (forall c, ~ In (Rejected c) t) -> rejections t = 0.
Proof.
  unfold rejections. induction t as [|e t IH]; intros H; [reflexivity|].
  destruct e; simpl; try (apply IH; intros c Hc; apply (H c); now right).
  now destruct (H server_code); left.
Qed.

Lemma no_selects (t : list event) :
  (forall c, ~ In (Select c) t) -> selects t = 0.
Proof.
  unfold selects. induction t as [|e t IH]; intros H; [reflexivity|].
  destruct e; simpl; try (apply IH; intros c Hc; apply (H c); now right).
  now destruct (H server_code); left.
Qed.

(** X5: with the object the module binds to [DATA_VERIFIER], a set, a call
    that returns has returned the empty text without selecting any endpoint
    (a call in which one gets selected ends by raising), and no endpoint is
    ever rejected. *)
Theorem shipped_marker_never_succeeds
    (w : world) (url : string) (st : store) :
  match fst (fetch_content_through_proxy DATA_VERIFIER_literal w url (boot st)) with
  | Val text =>
      text = "" /\
      selects (trace (snd (fetch_content_through_proxy DATA_VERIFIER_literal w
                             url (boot st)))) = 0
  | Exc _ => True
  end /\
  rejections (trace (snd (fetch_content_through_proxy DATA_VERIFIER_literal w
                            url (boot st)))) = 0.
Proof.
  split.
  - destruct (fetch_content_through_proxy DATA_VERIFIER_literal w url (boot st))
      as [[text|e] σ'] eqn:Hout; [|exact I]. simpl. split.
    + destruct text as [|a text]; [reflexivity|].
      assert (Hver : verification_condition DATA_VERIFIER_literal (String a text)
                     = Val true)
        by (eapply success_was_verified; [exact Hout | discriminate]).
      discriminate Hver.
    + apply no_selects. intros c Hc.
      destruct (fetch_trace_cases DATA_VERIFIER_literal w url st)
        as [(e & _ & Hrun)|[(e & _ & _ & Hrun)
           |(loaded & r & evs & _ & _ & Htrace & Hrun)]];
        rewrite Hrun in Hout; try discriminate Hout.
      replace σ' with (snd (epilogue st r evs)) in Hc by now rewrite Hout.
      apply in_epilogue in Hc; eauto.
      destruct (shipped_marker_select_raises_attempt _ _ _ _ _ _ _ Htrace Hc)
        as (e & ->).
      discriminate Hout.
  - apply no_rejections. intros c Hc.
    destruct (fetch_trace_cases DATA_VERIFIER_literal w url st)
      as [(e & _ & Hrun)|[(e & _ & _ & Hrun)
         |(loaded & r & evs & _ & _ & Htrace & Hrun)]];
      rewrite Hrun in Hc.
    + destruct Hc.
    + simpl in Hc. intuition discriminate.
    + apply in_epilogue in Hc; eauto.
      destruct (attempt_reject_failed _ _ _ _ _ _ _ _ Htrace Hc)
        as (elem & text & _ & _ & _ & Hver).
      discriminate Hver.
Qed.

Lemma contains_empty (text : string) : contains "" text = true.
Proof. rewrite contains_unfold. now destruct text. Qed.

(** X6: with the empty [str] as marker every page passes the test, so no
    endpoint is ever rejected, whatever the pages hold. *)
Theorem empty_marker_rejects_nothing
    (w : world) (url : string) (st : store) (text : string) :
  verification_condition (PyStr "") text = Val true /\
  rejections (trace (snd (fetch_content_through_proxy (PyStr "") w url
                            (boot st)))) = 0.
Proof.
  assert (Hall : forall t, verification_condition (PyStr "") t = Val true).
  { intros t. unfold verification_condition, py_or, py_in_str.
    now rewrite contains_empty. }
  split; [apply Hall|].
  apply no_rejections. intros c Hc.
  destruct (fetch_trace_cases (PyStr "") w url st)
    as [(e & _ & Hrun)|[(e & _ & _ & Hrun)
       |(loaded & r & evs & _ & _ & Htrace & Hrun)]];
    rewrite Hrun in Hc.
  - destruct Hc.
  - simpl in Hc. intuition discriminate.
  - apply in_epilogue in Hc; eauto.
    destruct (attempt_reject_failed _ _ _ _ _ _ _ _ Htrace Hc)
      as (elem & t & _ & _ & _ & Hver).
    rewrite Hall in Hver. discriminate Hver.
Qed.

(** ** Rounds, the store and the browser *)

Lemma elem_trace_post (v : pyobj) (url : string) (elems : list option_elem)
    (l : locals) (r : res locals) (evs : list event) :
  elem_trace v url elems l r evs -> elem_post v elems l evs r.
Proof.
  intros Htrace. apply elem_trace_runs in Htrace.
  destruct (for_elem_emits v url elems l) as (r' & evs' & Hrun & Hp).
  now destruct (runs_unique _ _ _ _ _ Htrace Hrun) as [-> ->].
Qed.

Lemma gets_app (a b : list event) : gets (a ++ b) = gets a + gets b.
Proof. unfold gets. now rewrite List.filter_app, length_app. Qed.

Lemma gets_inner (t : list event) : Forall inner_event t -> gets t = 0.
Proof.
  unfold gets. induction 1 as [|e t He _ IH]; [reflexivity|].
  destruct e; try contradiction; exact IH.
Qed.

Lemma gets_round_head (consent : bool) (n : nat) : gets (round_head consent n) = 1.
Proof. now destruct consent. Qed.

Lemma attempt_gets_all (v : pyobj) (w : world) (url : string)
    (attempts : list nat) (l : locals) (r : res locals) (evs : list event) :
  attempt_trace v w url attempts l r evs ->
  forall l', r = Val l' -> truthy (content l') = false ->
  gets evs = List.length attempts.
Proof.
  intros H. attempt_trace_cases H; intros l' Hr Hfalse; try discriminate Hr.
  - reflexivity.
  - injection Hr as <-. congruence.
  - rewrite !gets_app, gets_round_head, (IH l' Hr Hfalse).
    rewrite (gets_inner inner); [reflexivity|].
    exact (ep_events _ _ _ _ _ (elem_trace_post _ _ _ _ _ _ Hinner)).
Qed.

Lemma gets_epilogue (st : store) (r : res locals) (evs : list event) :
  gets (trace (snd (epilogue st r evs))) = gets evs.
Proof.
  destruct (epilogue_trace st r evs) as (tail & -> & Htail).
  change (Launch :: evs ++ tail ++ [Quit]) with ([Launch] ++ evs ++ tail ++ [Quit]).
  rewrite !gets_app. destruct Htail as [->|(b & ->)]; unfold gets; simpl; lia.
Qed.

(** X7: the empty text is returned only after all [MAX_ROUNDS] navigations
    to the entry page were made. *)
Theorem empty_result_took_all_rounds
    (v : pyobj) (w : world) (url : string) (st : store) (σ' : state) :
  fetch_content_through_proxy v w url (boot st) = (Val "", σ') ->
  gets (trace σ') = MAX_ROUNDS.
Proof.
  intros Hout.
  destruct (fetch_trace_cases v w url st)
    as [(e & _ & Hrun)|[(e & _ & _ & Hrun)
       |(loaded & r & evs & _ & _ & Htrace & Hrun)]];
    rewrite Hrun in Hout; try discriminate Hout.
  replace σ' with (snd (epilogue st r evs)) by now rewrite Hout.
  rewrite gets_epilogue.
  unfold epilogue in Hout. destruct r as [l|e]; [|discriminate Hout].
  apply (attempt_gets_all _ _ _ _ _ _ _ Htrace l eq_refl).
  destruct (truthy (content l)) eqn:Ht; [|reflexivity].
  injection Hout as Hc _. rewrite Hc in Ht. discriminate Ht.
Qed.

Lemma empty_result_took_all_rounds_witness :
  gets (trace (snd (fetch_content_through_proxy (PyStr "PAGE-OK")
                      no_relay_works "https://example.com" (boot no_file))))
  = MAX_ROUNDS.
Proof.
  apply (empty_result_took_all_rounds (PyStr "PAGE-OK") no_relay_works
           "https://example.com" no_file).
  vm_compute. reflexivity.
Defined.

(** X8: the call writes the backing file on one path only: whenever the
    store after the call differs from the store before it, the call has
    returned the empty text and the file was writable. *)
Theorem store_changes_only_on_exhaustion
    (v : pyobj) (w : world) (url : string) (st : store) :
  fs (snd (fetch_content_through_proxy v w url (boot st))) = st \/
  (fst (fetch_content_through_proxy v w url (boot st)) = Val "" /\
   writable st = true).
Proof.
  destruct (fetch_exit_path v w url st)
    as [e He|e _ He|ld evs e _ _ Hpost|ld evs l _ _ Hpost Ht
       |ld evs l _ _ Hpost Ht Hw|ld evs l _ _ Hpost Ht Hw]; simpl; auto.
  right. split; [|exact Hw]. f_equal.
  destruct (content l); [reflexivity | discriminate Ht].
Qed.

(** X9: when the backing file cannot be written, the call leaves the store
    as it was and never returns the empty text: a run that exhausts its
    rounds ends by the write error instead. *)
Theorem unwritable_file_turns_exhaustion_into_error
    (v : pyobj) (w : world) (url : string) (st : store) :
  writable st = false ->
  fs (snd (fetch_content_through_proxy v w url (boot st))) = st /\
  fst (fetch_content_through_proxy v w url (boot st)) <> Val "".
Proof.
  intros Hw.
  destruct (fetch_exit_path v w url st)
    as [e He|e _ He|ld evs e _ _ Hpost|ld evs l _ _ Hpost Ht
       |ld evs l _ _ Hpost Ht Hw'|ld evs l _ _ Hpost Ht Hw']; simpl;
    try (split; [reflexivity | discriminate]); try congruence.
  split; [reflexivity|]. intros [= Hc]. rewrite Hc in Ht. discriminate Ht.
Qed.

Lemma unwritable_file_turns_exhaustion_into_error_witness :
  fs (snd (fetch_content_through_proxy (PyStr "PAGE-OK") no_relay_works
             "https://example.com" (boot (Store Absent false))))
    = Store Absent false /\
  fst (fetch_content_through_proxy (PyStr "PAGE-OK") no_relay_works
         "https://example.com" (boot (Store Absent false))) <> Val "".
Proof.
  apply (unwritable_file_turns_exhaustion_into_error (PyStr "PAGE-OK")
           no_relay_works "https://example.com" (Store Absent false)).
  reflexivity.
Defined.

(** X10: once the browser has started and the blacklist is loaded, the
    browser is quit exactly once, and quitting it is the last thing the call
    does, on every exit path. *)
Theorem quit_is_last_after_load
    (v : pyobj) (w : world) (url : string) (st : store) (loaded : json) :
  chrome w = None ->
  load_bad_servers (boot st) = (Val loaded, boot st) ->
  exists before,
    trace (snd (fetch_content_through_proxy v w url (boot st)))
      = before ++ [Quit] /\
    quits before = 0.
Proof.
  intros Hchrome Hl. apply load_from_boot in Hl.
  assert (Hq : forall evs tail, Forall round_event evs ->
            quits (Launch :: evs ++ tail) = quits tail).
  { intros evs tail Hevs. unfold quits. simpl. rewrite List.filter_app, length_app.
    induction Hevs as [|e evs He _ IH]; [reflexivity|].
    destruct e; try contradiction; simpl in *; exact IH. }
  destruct (fetch_exit_path v w url st)
    as [e He|e _ He|ld evs e _ _ Hpost|ld evs l _ _ Hpost _
       |ld evs l _ _ Hpost _ _|ld evs l _ _ Hpost _ _]; try congruence;
    cbn [snd trace].
  - exists (Launch :: evs). split; [reflexivity|].
    rewrite <- (app_nil_r evs). exact (Hq _ [] (ap_events _ _ _ _ _ Hpost)).
  - exists (Launch :: evs). split; [reflexivity|].
    rewrite <- (app_nil_r evs). exact (Hq _ [] (ap_events _ _ _ _ _ Hpost)).
  - exists (Launch :: evs ++ [Save (bad_servers l)]). split.
    + simpl. now rewrite <- app_assoc.
    + exact (Hq _ [Save (bad_servers l)] (ap_events _ _ _ _ _ Hpost)).
  - exists (Launch :: evs). split; [reflexivity|].
    rewrite <- (app_nil_r evs). exact (Hq _ [] (ap_events _ _ _ _ _ Hpost)).
Qed.

Lemma quit_is_last_after_load_witness :
  exists before,
    trace (snd (fetch_content_through_proxy DATA_VERIFIER_literal
                  second_relay_works "https://example.com" (boot no_file)))
      = before ++ [Quit] /\
    quits before = 0.
Proof.
  apply (quit_is_last_after_load DATA_VERIFIER_literal second_relay_works
           "https://example.com" no_file (JDict ∅)); reflexivity.
Defined.

(** ** The order of the candidates *)

Lemma visited_app (a b : list event) : visited (a ++ b) = visited a ++ visited b.
Proof.
  induction a as [|e a IH]; [reflexivity|].
  destruct e; simpl; now rewrite ?IH.
Qed.

Lemma visited_quiet (t : list event) : Forall quiet_event t -> visited t = [].
Proof.
  induction 1 as [|e t He _ IH]; [reflexivity|].
  destruct e; try contradiction; exact IH.
Qed.

Lemma elem_visited_in_order (v : pyobj) (url : string)
    (elems : list option_elem) (l : locals) (r : res locals)
    (evs : list event) :
  elem_trace v url elems l r evs -> in_page_order elems evs.
Proof.
  unfold in_page_order.
  intros H. elem_trace_cases H; simpl;
    try (exists (map data_value rest); now rewrite Hd);
    try (now eexists).
  - destruct IH as (k & Hk). exists k. now rewrite Hd, Hk.
  - destruct IH as (k & Hk). exists k. now rewrite Hd, Hk.
Qed.

Lemma rounds_cons_shape (consent : bool) (n : nat) (inner rest : list event) :
  Forall inner_event inner ->
  rounds (round_head consent n ++ inner ++ rest) =
  ((if consent then [Consent] else []) ++ Found n :: inner
     ++ fst (split_rounds rest)) :: rounds rest.
Proof.
  intros Hi.
  assert (Hshape : round_head consent n ++ inner ++ rest =
            Get :: ((if consent then [Consent] else []) ++ Found n :: inner)
                   ++ rest).
  { unfold round_head. simpl. now rewrite <- !app_assoc. }
  assert (Hnoget : Forall (fun e => e <> Get)
            ((if consent then [Consent] else []) ++ Found n :: inner)).
  { apply Forall_app. split.
    - destruct consent; repeat constructor; discriminate.
    - constructor; [discriminate | now apply inner_not_get]. }
  unfold rounds. rewrite Hshape. simpl.
  rewrite (split_rounds_inner _ _ Hnoget). simpl.
  now rewrite <- app_assoc.
Qed.

Lemma visited_round (consent : bool) (n : nat) (inner p : list event) :
  Forall quiet_event p ->
  visited ((if consent then [Consent] else []) ++ Found n :: inner ++ p)
  = visited inner.
Proof.
  intros Hp. rewrite visited_app. simpl. rewrite visited_app.
  rewrite (visited_quiet p Hp), app_nil_r. now destruct consent.
Qed.

Lemma attempt_rounds_in_order (v : pyobj) (w : world) (url : string)
    (attempts : list nat) (l : locals) (r : res locals) (evs : list event) :
  attempt_trace v w url attempts l r evs ->
  forall tail, Forall quiet_event tail ->
  forall i round, nth_error (rounds (evs ++ tail)) i = Some round ->
  exists attempt,
    nth_error attempts i = Some attempt /\
    forall consent elems,
      proxyium w attempt = Loaded consent elems -> in_page_order elems round.
Proof.
  intros H. attempt_trace_cases H; intros tail Htail i round Hi.
  - unfold rounds in Hi. simpl in Hi. rewrite (split_rounds_quiet _ Htail) in Hi.
    destruct i; discriminate Hi.
  - unfold rounds in Hi. simpl in Hi. rewrite (split_rounds_quiet _ Htail) in Hi.
    destruct i as [|i]; [|destruct i; discriminate Hi].
    exists attempt. split; [reflexivity|]. intros c els Hp. congruence.
  - unfold rounds in Hi. simpl in Hi.
    assert (Hq : Forall quiet_event ((if consent then [Consent] else []) ++ tail))
      by (apply Forall_app; split; [apply quiet_consent | exact Htail]).
    rewrite (split_rounds_quiet _ Hq) in Hi.
    destruct i as [|i]; [|destruct i; discriminate Hi].
    exists attempt. split; [reflexivity|]. intros c els Hp. congruence.
  - pose proof (ep_events _ _ _ _ _ (elem_trace_post _ _ _ _ _ _ Hinner)) as Hev.
    rewrite <- app_assoc, (rounds_cons_shape _ _ _ _ Hev) in Hi.
    unfold rounds in Hi. rewrite (split_rounds_quiet _ Htail) in Hi.
    destruct i as [|i]; [|destruct i; discriminate Hi].
    injection Hi as <-. exists attempt. split; [reflexivity|].
    intros c els Hp. assert (els = elems) as -> by congruence.
    destruct (elem_visited_in_order _ _ _ _ _ _ Hinner) as (k & Hk).
    exists k. simpl fst. now rewrite (visited_round _ _ _ _ Htail).
  - pose proof (ep_events _ _ _ _ _ (elem_trace_post _ _ _ _ _ _ Hinner)) as Hev.
    rewrite <- app_assoc, (rounds_cons_shape _ _ _ _ Hev) in Hi.
    unfold rounds in Hi. rewrite (split_rounds_quiet _ Htail) in Hi.
    destruct i as [|i]; [|destruct i; discriminate Hi].
    injection Hi as <-. exists attempt. split; [reflexivity|].
    intros c els Hp. assert (els = elems) as -> by congruence.
    destruct (elem_visited_in_order _ _ _ _ _ _ Hinner) as (k & Hk).
    exists k. simpl fst. now rewrite (visited_round _ _ _ _ Htail).
  - pose proof (ep_events _ _ _ _ _ (elem_trace_post _ _ _ _ _ _ Hinner)) as Hev.
    rewrite <- !app_assoc, (rounds_cons_shape _ _ _ _ Hev) in Hi.
    destruct i as [|i].
    + injection Hi as <-. exists attempt. split; [reflexivity|].
      intros c els Hp. assert (els = elems) as -> by congruence.
      destruct (elem_visited_in_order _ _ _ _ _ _ Hinner) as (k & Hk).
      exists k. rewrite visited_round; [exact Hk|].
      exact (proj1 (ap_rounds _ _ _ _ _
                      (attempt_trace_post _ _ _ _ _ _ _ Hmore) tail Htail)).
    + simpl in Hi. exact (IH tail Htail i round Hi).
Qed.

(** X11: in every navigation cycle the endpoints are gone through in the
    order of the page: those selected or skipped in cycle [i] are, in order
    and without gaps, the first options that attempt [i] enumerated. *)
Theorem candidates_visited_in_page_order
    (v : pyobj) (w : world) (url : string) (st : store)
    (i : nat) (round : list event) (consent : bool)
    (elems : list option_elem) :
  nth_error (rounds (trace (snd (fetch_content_through_proxy v w url (boot st)))))
            i = Some round ->
  proxyium w i = Loaded consent elems ->
  in_page_order elems round.
Proof.
  intros Hi Hpage.
  destruct (fetch_trace_cases v w url st)
    as [(e & _ & Hrun)|[(e & _ & _ & Hrun)
       |(loaded & r & evs & _ & _ & Htrace & Hrun)]];
    rewrite Hrun in Hi.
  - destruct i; discriminate Hi.
  - destruct i; discriminate Hi.
  - destruct (epilogue_trace st r evs) as (tail & Ht & Htail).
    rewrite Ht in Hi.
    assert (Hq : Forall quiet_event (tail ++ [Quit])).
    { destruct Htail as [->|(b & ->)]; repeat constructor. }
    change (rounds (Launch :: evs ++ tail ++ [Quit]))
      with (rounds (evs ++ tail ++ [Quit])) in Hi.
    destruct (attempt_rounds_in_order _ _ _ _ _ _ _ Htrace _ Hq i round Hi)
      as (attempt & Hnth & Hin).
    assert (attempt = i) as ->.
    { do 5 (destruct i as [|i]; [now injection Hnth|]).
      destruct i; discriminate Hnth. }
    exact (Hin consent elems Hpage).
Qed.

Lemma candidates_visited_in_page_order_witness :
  in_page_order [r1; r2]
    [Consent; Found 2; Select "r1"; Rejected "r1"; Select "r2"; Quit].
Proof.
  apply (candidates_visited_in_page_order (PyStr "PAGE-OK") second_relay_works
           "https://example.com" no_file 0 _ true [r1; r2]); reflexivity.
Defined.

(** ** The consent button *)

Lemma strip_consent_app (a b : list event) :
  strip_consent (a ++ b) = strip_consent a ++ strip_consent b.
Proof. apply List.filter_app. Qed.

Lemma strip_consent_inner (t : list event) :
  Forall inner_event t -> strip_consent t = t.
Proof.
  unfold strip_consent. induction 1 as [|e t He _ IH]; [reflexivity|].
  destruct e; try contradiction; simpl; now rewrite IH.
Qed.

Lemma strip_consent_head (consent : bool) (n : nat) :
  strip_consent (round_head consent n) = round_head false n.
Proof. now destruct consent. Qed.

Lemma attempt_trace_without_consent (v : pyobj) (w : world) (url : string)
    (attempts : list nat) (l : locals) (r : res locals) (evs : list event) :
  attempt_trace v w url attempts l r evs ->
  attempt_trace v (without_consent w) url attempts l r (strip_consent evs).
Proof.
  intros H. attempt_trace_cases H.
  - apply at_done.
  - apply at_get_fails. simpl. now rewrite Hpage.
  - replace (strip_consent (Get :: if consent then [Consent] else []))
      with (Get :: if false then [Consent] else []) by now destruct consent.
    apply (at_form_missing v (without_consent w) url attempt rest l false e).
    simpl. now rewrite Hpage.
  - pose proof (ep_events _ _ _ _ _ (elem_trace_post _ _ _ _ _ _ Hinner)) as Hev.
    rewrite strip_consent_app, strip_consent_head, (strip_consent_inner _ Hev).
    eapply at_loop_raises; [simpl; now rewrite Hpage | exact Hinner].
  - pose proof (ep_events _ _ _ _ _ (elem_trace_post _ _ _ _ _ _ Hinner)) as Hev.
    rewrite strip_consent_app, strip_consent_head, (strip_consent_inner _ Hev).
    eapply at_found; [simpl; now rewrite Hpage | exact Hinner | exact Ht].
  - pose proof (ep_events _ _ _ _ _ (elem_trace_post _ _ _ _ _ _ Hinner)) as Hev.
    rewrite !strip_consent_app, strip_consent_head, (strip_consent_inner _ Hev).
    eapply at_next; [simpl; now rewrite Hpage | exact Hinner | exact Ht | exact IH].
Qed.

Lemma epilogue_strip_consent (st : store) (r : res locals) (evs : list event) :
  fst (epilogue st r (strip_consent evs)) = fst (epilogue st r evs) /\
  fs (snd (epilogue st r (strip_consent evs))) = fs (snd (epilogue st r evs)) /\
  trace (snd (epilogue st r (strip_consent evs)))
    = strip_consent (trace (snd (epilogue st r evs))).
Proof.
  unfold epilogue.
  assert (Ht : forall tail, Forall (fun e => is_consent e = false) tail ->
            Launch :: strip_consent evs ++ tail
            = strip_consent (Launch :: evs ++ tail)).
  { intros tail Htail.
    change (Launch :: evs ++ tail) with ([Launch] ++ evs ++ tail).
    rewrite !strip_consent_app. simpl. do 2 f_equal.
    unfold strip_consent. induction Htail as [|e tail He _ IH]; [reflexivity|].
    simpl. now rewrite He, <- IH. }
  destruct r as [l|e]; [|repeat split; apply Ht; repeat constructor].
  destruct (truthy (content l)); [repeat split; apply Ht; repeat constructor|].
  destruct (writable st); repeat split; apply Ht; repeat constructor.
Qed.

(** X12: whether the consent button can be clicked changes nothing but the
    click itself: on a site where it never can, the call gives the same
    result, leaves the same store and makes the same actions, the consent
    clicks apart. *)
Theorem consent_button_changes_nothing_else
    (v : pyobj) (w : world) (url : string) (st : store) :
  fst (fetch_content_through_proxy v (without_consent w) url (boot st))
    = fst (fetch_content_through_proxy v w url (boot st)) /\
  fs (snd (fetch_content_through_proxy v (without_consent w) url (boot st)))
    = fs (snd (fetch_content_through_proxy v w url (boot st))) /\
  trace (snd (fetch_content_through_proxy v (without_consent w) url (boot st)))
    = strip_consent
        (trace (snd (fetch_content_through_proxy v w url (boot st)))).
Proof.
  destruct (fetch_trace_cases v w url st)
    as [(e & Hchrome & Hrun)|[(e & Hchrome & Hload & Hrun)
       |(loaded & r & evs & Hchrome & Hload & Htrace & Hrun)]];
    rewrite Hrun.
  - destruct (fetch_trace_cases v (without_consent w) url st)
      as [(e' & Hchrome' & Hrun')|[(e' & Hchrome' & _)
         |(ld & r' & evs' & Hchrome' & _)]];
      simpl in Hchrome'; try congruence.
    rewrite Hrun'. assert (e' = e) as -> by congruence. now repeat split.
  - destruct (fetch_trace_cases v (without_consent w) url st)
      as [(e' & Hchrome' & _)|[(e' & Hchrome' & Hload' & Hrun')
         |(ld & r' & evs' & Hchrome' & Hload' & _)]];
      simpl in Hchrome'; try congruence.
    rewrite Hrun'. assert (e' = e) as -> by congruence. now repeat split.
  - rewrite (fetch_by_trace v (without_consent w) url st loaded r
               (strip_consent evs)
               (attempt_trace_without_consent _ _ _ _ _ _ _ Htrace)
               Hchrome Hload).
    apply epilogue_strip_consent.
Qed.

(** ** Pages that fail, and pages with nothing to try *)

Lemma attempt_page_fails_last (v : pyobj) (w : world) (url : string)
    (attempts : list nat) (l : locals) (r : res locals) (evs : list event) :
  attempt_trace v w url attempts l r evs ->
  forall tail, Forall quiet_event tail ->
  forall i round, nth_error (rounds (evs ++ tail)) i = Some round ->
  exists attempt,
    nth_error attempts i = Some attempt /\
    forall e, page_fails w attempt e ->
      r = Exc e /\ List.length (rounds (evs ++ tail)) = S i.
Proof.
  unfold page_fails.
  intros H. attempt_trace_cases H; intros tail Htail i round Hi.
  - unfold rounds in Hi. simpl in Hi. rewrite (split_rounds_quiet _ Htail) in Hi.
    destruct i; discriminate Hi.
  - unfold rounds in *. simpl in *. rewrite (split_rounds_quiet _ Htail) in *.
    destruct i as [|i]; [|destruct i; discriminate Hi].
    exists attempt. split; [reflexivity|].
    intros e' [Hp|(c & Hp)]; [|congruence].
    split; [congruence | reflexivity].
  - unfold rounds in *. simpl in *.
    assert (Hq : Forall quiet_event ((if consent then [Consent] else []) ++ tail))
      by (apply Forall_app; split; [apply quiet_consent | exact Htail]).
    rewrite (split_rounds_quiet _ Hq) in *.
    destruct i as [|i]; [|destruct i; discriminate Hi].
    exists attempt. split; [reflexivity|].
    intros e' [Hp|(c & Hp)]; [congruence|].
    split; [congruence | reflexivity].
  - pose proof (ep_events _ _ _ _ _ (elem_trace_post _ _ _ _ _ _ Hinner)) as Hev.
    rewrite <- app_assoc, (rounds_cons_shape _ _ _ _ Hev) in Hi.
    unfold rounds in Hi. rewrite (split_rounds_quiet _ Htail) in Hi.
    destruct i as [|i]; [|destruct i; discriminate Hi].
    exists attempt. split; [reflexivity|].
    intros e' [Hp|(c & Hp)]; congruence.
  - pose proof (ep_events _ _ _ _ _ (elem_trace_post _ _ _ _ _ _ Hinner)) as Hev.
    rewrite <- app_assoc, (rounds_cons_shape _ _ _ _ Hev) in Hi.
    unfold rounds in Hi. rewrite (split_rounds_quiet _ Htail) in Hi.
    destruct i as [|i]; [|destruct i; discriminate Hi].
    exists attempt. split; [reflexivity|].
    intros e' [Hp|(c & Hp)]; congruence.
  - pose proof (ep_events _ _ _ _ _ (elem_trace_post _ _ _ _ _ _ Hinner)) as Hev.
    rewrite <- !app_assoc, (rounds_cons_shape _ _ _ _ Hev) in *.
    destruct i as [|i].
    + exists attempt. split; [reflexivity|].
      intros e' [Hp|(c & Hp)]; congruence.
    + simpl in Hi. destruct (IH tail Htail i round Hi) as (a & Hnth & Hlast).
      exists a. split; [exact Hnth|].
      intros e' Hp. destruct (Hlast e' Hp) as [-> Hlen].
      split; [reflexivity|]. simpl. now rewrite Hlen.
Qed.

(** X13: a navigation cycle whose page cannot be brought up (the entry page
    does not load, or the form or the dropdown is not there) ends the call
    with that error: no later cycle is started and the store is left as it
    was. *)
Theorem failed_page_ends_call
    (v : pyobj) (w : world) (url : string) (st : store)
    (i : nat) (round : list event) (e : exn) :
  nth_error (rounds (trace (snd (fetch_content_through_proxy v w url (boot st)))))
            i = Some round ->
  page_fails w i e ->
  fst (fetch_content_through_proxy v w url (boot st)) = Exc e /\
  gets (trace (snd (fetch_content_through_proxy v w url (boot st)))) = S i /\
  fs (snd (fetch_content_through_proxy v w url (boot st))) = st.
Proof.
  intros Hi Hpage. rewrite <- gets_rounds.
  destruct (fetch_trace_cases v w url st)
    as [(e0 & _ & Hrun)|[(e0 & _ & _ & Hrun)
       |(loaded & r & evs & _ & _ & Htrace & Hrun)]];
    rewrite Hrun in *.
  - destruct i; discriminate Hi.
  - destruct i; discriminate Hi.
  - destruct (epilogue_trace st r evs) as (tail & Ht & Htail).
    rewrite Ht in *.
    assert (Hq : Forall quiet_event (tail ++ [Quit])).
    { destruct Htail as [->|(b & ->)]; repeat constructor. }
    change (rounds (Launch :: evs ++ tail ++ [Quit]))
      with (rounds (evs ++ tail ++ [Quit])) in *.
    destruct (attempt_page_fails_last _ _ _ _ _ _ _ Htrace _ Hq i round Hi)
      as (attempt & Hnth & Hlast).
    assert (attempt = i) as ->.
    { do 5 (destruct i as [|i]; [now injection Hnth|]).
      destruct i; discriminate Hnth. }
    destruct (Hlast e Hpage) as [-> Hlen]. now repeat split.
Qed.

Lemma failed_page_ends_call_witness :
  fst (fetch_content_through_proxy (PyStr "PAGE-OK") form_vanishes
         "https://example.com" (boot no_file)) = Exc TimeoutException /\
  gets (trace (snd (fetch_content_through_proxy (PyStr "PAGE-OK") form_vanishes
                      "https://example.com" (boot no_file)))) = 2 /\
  fs (snd (fetch_content_through_proxy (PyStr "PAGE-OK") form_vanishes
             "https://example.com" (boot no_file))) = no_file.
Proof.
  apply (failed_page_ends_call (PyStr "PAGE-OK") form_vanishes
           "https://example.com" no_file 1 [Quit] TimeoutException).
  - reflexivity.
  - right. exists false. reflexivity.
Defined.

Lemma elem_trace_all_listed (v : pyobj) (url : string)
    (elems : list option_elem) (l : locals) :
  all_listed (bad_servers l) elems ->
  exists evs, elem_trace v url elems l (Val l) evs /\ selects evs = 0.
Proof.
  induction 1 as [|elem rest (c & Hd & Hl) _ (evs & Htrace & Hsel)].
  - exists []. split; [apply et_done | reflexivity].
  - exists (Skip c :: evs). split; [|exact Hsel].
    eapply et_skip; eauto.
Qed.

Lemma attempt_trace_all_listed (v : pyobj) (w : world) (url : string)
    (attempts : list nat) (l : locals) :
  truthy (content l) = false ->
  (forall attempt, In attempt attempts ->
     exists consent elems,
       proxyium w attempt = Loaded consent elems /\
       all_listed (bad_servers l) elems) ->
  exists evs, attempt_trace v w url attempts l (Val l) evs /\ selects evs = 0.
Proof.
  intros Hfalse. induction attempts as [|attempt rest IH]; intros Hall.
  - exists []. split; [apply at_done | reflexivity].
  - destruct (Hall attempt (or_introl eq_refl)) as (consent & elems & Hpage & Hl).
    destruct (elem_trace_all_listed v url elems l Hl) as (inner & Hinner & Hsel).
    destruct IH as (more & Hmore & Hsel').
    { intros a Ha. apply Hall. now right. }
    exists (round_head consent (List.length elems) ++ inner ++ more). split.
    + eapply at_next; eauto.
    + rewrite !selects_app, Hsel, Hsel'. now destruct consent.
Qed.

(** X14: when in every attempt the page loads and every option it lists is
    already blacklisted (or it lists none), the call selects nothing,
    returns the empty text and writes the loaded blacklist back to the
    file, creating the file if there was none. *)
Theorem nothing_to_try_rewrites_file
    (v : pyobj) (w : world) (url : string) (st : store) (loaded : json) :
  chrome w = None ->
  load_bad_servers (boot st) = (Val loaded, boot st) ->
  writable st = true ->
  (forall attempt, attempt < MAX_ROUNDS ->
     exists consent elems,
       proxyium w attempt = Loaded consent elems /\ all_listed loaded elems) ->
  fst (fetch_content_through_proxy v w url (boot st)) = Val "" /\
  backing (fs (snd (fetch_content_through_proxy v w url (boot st))))
    = Holds (Json loaded) /\
  selects (trace (snd (fetch_content_through_proxy v w url (boot st)))) = 0.
Proof.
  intros Hchrome Hl Hw Hall. apply load_from_boot in Hl.
  destruct (attempt_trace_all_listed v w url (seq 0 5) (Locals loaded ""))
    as (evs & Htrace & Hsel); [reflexivity | |].
  { intros attempt Hin. apply Hall. apply in_seq in Hin.
    unfold MAX_ROUNDS. lia. }
  rewrite (fetch_by_trace v w url st loaded _ _ Htrace Hchrome Hl).
  unfold epilogue. simpl. rewrite Hw. simpl. repeat split.
  change (Launch :: evs ++ [Save loaded; Quit])
    with ([Launch] ++ evs ++ [Save loaded; Quit]).
  now rewrite !selects_app, Hsel.
Qed.

Lemma nothing_to_try_rewrites_file_witness :
  fst (fetch_content_through_proxy (PyStr "PAGE-OK") empty_dropdown
         "https://example.com" (boot no_file)) = Val "" /\
  backing (fs (snd (fetch_content_through_proxy (PyStr "PAGE-OK") empty_dropdown
                      "https://example.com" (boot no_file))))
    = Holds (Json (JDict ∅)) /\
  selects (trace (snd (fetch_content_through_proxy (PyStr "PAGE-OK")
                         empty_dropdown "https://example.com" (boot no_file))))
    = 0.
Proof.
  apply (nothing_to_try_rewrites_file (PyStr "PAGE-OK") empty_dropdown
           "https://example.com" no_file (JDict ∅)); try reflexivity.
  intros attempt _. exists false, []. split; [reflexivity | constructor].
Defined.

(** ** The request handler *)

(** X16: the handler answers 400 exactly for a content type that has no URL
    (no entry in [URL_MAP], or an entry holding the empty [str]); the answer
    is then the fixed message, and neither the browser nor the file was
    touched. *)
Theorem unsupported_type_answers_400
    (URL_MAP : gmap string string) (v : pyobj) (w : world)
    (content_type : string) (σ : state) (resp : response) (σ' : state) :
  get_content URL_MAP v w content_type σ = (Val resp, σ') ->
  (status resp = 400 <->
     URL_MAP !! content_type = None \/ URL_MAP !! content_type = Some "") /\
  (status resp = 400 ->
     resp = Response "Content type not supported" 400 None /\ σ' = σ).
Proof.
  unfold get_content. destruct (URL_MAP !! content_type) as [url|] eqn:Hurl.
  - destruct url as [|a url]; simpl.
    + unfold ret. intros [= <- <-]. simpl. split; [split; auto|]. auto.
    + unfold bind.
      destruct (fetch_content_through_proxy v w (String a url) σ)
        as [[text|e] σ1]; [|discriminate].
      unfold ret. intros [= <- <-]. simpl. split; [split|]; try discriminate.
      intros [H|H]; discriminate H.
  - unfold ret. intros [= <- <-]. simpl. split; [split; auto|]. auto.
Qed.

Lemma unsupported_type_answers_400_witness :
  (status (Response "Content type not supported" 400 None) = 400 <->
     URL_MAP_literal !! "weather" = None \/
     URL_MAP_literal !! "weather" = Some "") /\
  (status (Response "Content type not supported" 400 None) = 400 ->
     Response "Content type not supported" 400 None
       = Response "Content type not supported" 400 None /\
     boot no_file = boot no_file).
Proof.
  apply (unsupported_type_answers_400 URL_MAP_literal DATA_VERIFIER_literal
           second_relay_works "weather" (boot no_file)).
  reflexivity.
Defined.

(** X17: for a content type that has a URL, an answer of the handler has
    status 200 and the JavaScript type, and its body is the empty text or a
    text that contains the marker. *)
Theorem supported_type_answers_200
    (URL_MAP : gmap string string) (v : pyobj) (w : world)
    (content_type url : string) (st : store) (resp : response) (σ' : state) :
  get_content URL_MAP v w content_type (boot st) = (Val resp, σ') ->
  URL_MAP !! content_type = Some url -> url <> "" ->
  status resp = 200 /\
  mimetype resp = Some "application/javascript" /\
  (body resp = "" \/
   exists marker pre post,
     v = PyStr marker /\ body resp = pre +:+ marker +:+ post).
Proof.
  intros Hout Hurl Hne. unfold get_content in Hout. rewrite Hurl in Hout.
  apply truthy_nonempty in Hne. rewrite Hne in Hout. unfold bind in Hout.
  destruct (fetch_content_through_proxy v w url (boot st))
    as [[text|e] σ1] eqn:Hfetch; [|discriminate Hout].
  unfold ret in Hout. injection Hout as <- <-. simpl.
  repeat split.
  destruct text as [|a text]; [now left|]. right.
  assert (Hver : verification_condition v (String a text) = Val true)
    by (eapply success_was_verified; [exact Hfetch | discriminate]).
  apply verification_condition_true in Hver as (marker & -> & Hc).
  apply contains_spec in Hc as (pre & post & Hc).
  now exists marker, pre, post.
Qed.

Lemma supported_type_answers_200_witness :
  status (Response "header PAGE-OK footer" 200 (Some "application/javascript"))
    = 200 /\
  mimetype (Response "header PAGE-OK footer" 200 (Some "application/javascript"))
    = Some "application/javascript" /\
  (body (Response "header PAGE-OK footer" 200 (Some "application/javascript"))
     = "" \/
   exists marker pre post,
     PyStr "PAGE-OK" = PyStr marker /\
     body (Response "header PAGE-OK footer" 200 (Some "application/javascript"))
       = pre +:+ marker +:+ post).
Proof.
  apply (supported_type_answers_200 URL_MAP_literal (PyStr "PAGE-OK")
           second_relay_works "placeholder" "https://example.com" no_file
           (Response "header PAGE-OK footer" 200 (Some "application/javascript"))
           (State no_file [Launch; Get; Consent; Found 2; Select "r1";
                           Rejected "r1"; Select "r2"; Quit])).
  - vm_compute. reflexivity.
  - vm_compute. reflexivity.
  - discriminate.
Defined.

(** ** Users and passwords *)

Lemma query_first_spec (users : list User) (name : string) (u : User) :
  query_first users name = Some u <->
  exists before after,
    users = before ++ u :: after /\ username u = name /\
    Forall (fun x => username x <> name) before.
Proof.
  unfold query_first. induction users as [|x users IH]; simpl.
  - split; [discriminate|]. intros (before & after & H & _).
    destruct before; discriminate H.
  - destruct (String.eqb (username x) name) eqn:E.
    + apply String.eqb_eq in E. split.
      * intros [= <-]. exists [], users. repeat split; auto.
      * intros (before & after & H & Hname & Hbefore).
        destruct before as [|y before].
        -- simpl in H. now injection H as <- _.
        -- simpl in H. injection H as <- _.
           inversion Hbefore as [|? ? Hy _]. congruence.
    + apply String.eqb_neq in E. rewrite IH. split.
      * intros (before & after & -> & Hname & Hbefore).
        exists (x :: before), after. repeat split; auto.
      * intros (before & after & H & Hname & Hbefore).
        destruct before as [|y before].
        -- simpl in H. injection H as -> _. congruence.
        -- simpl in H. injection H as <- ->.
           inversion Hbefore. exists before, after. repeat split; auto.
Qed.

(** X18: [verify_password] accepts exactly when the username and the
    password are both non-empty and the first row stored under that username
    has a hash the password checks against; an empty password is refused
    even if the stored hash would accept it. *)
Theorem verify_password_accepts_iff
    (check_password_hash : string -> string -> bool)
    (users : list User) (name password : string) :
  verify_password check_password_hash users name password = true <->
  name <> "" /\ password <> "" /\
  exists before u after,
    users = before ++ u :: after /\ username u = name /\
    Forall (fun x => username x <> name) before /\
    check_password_hash (password_hash u) password = true.
Proof.
  unfold verify_password, check_password.
  destruct (truthy name) eqn:Hn; simpl.
  2:{ split; [discriminate|]. intros (H & _). apply truthy_nonempty in H.
      congruence. }
  destruct (truthy password) eqn:Hp; simpl.
  2:{ split; [discriminate|]. intros (_ & H & _). apply truthy_nonempty in H.
      congruence. }
  apply truthy_nonempty in Hn, Hp.
  destruct (query_first users name) as [u|] eqn:Hq.
  - apply query_first_spec in Hq as (before & after & Husers & Hname & Hbefore).
    destruct (check_password_hash (password_hash u) password) eqn:Hc; simpl.
    + split; [|reflexivity]. intros _. repeat split; auto.
      exists before, u, after. auto.
    + split; [discriminate|].
      intros (_ & _ & before' & u' & after' & Husers' & Hname' & Hbefore' & Hc').
      assert (Hq' : query_first users name = Some u')
        by (apply query_first_spec; eauto).
      assert (Hq0 : query_first users name = Some u)
        by (apply query_first_spec; eauto).
      congruence.
  - split; [discriminate|].
    intros (_ & _ & before' & u' & after' & Husers' & Hname' & Hbefore' & _).
    assert (Hq' : query_first users name = Some u')
      by (apply query_first_spec; eauto).
    congruence.
Qed.

(** X19: as long as checking a password against its own hash succeeds, a
    user whose password was set with [set_password] is accepted by
    [verify_password] under that password, provided the username and the
    password are non-empty and no earlier row carries the username; setting
    the password changes neither the id nor the username. *)
Theorem set_password_then_verify
    (generate_password_hash : string -> string -> string)
    (check_password_hash : string -> string -> bool)
    (before after : list User) (u : User) (salt password : string) :
  (forall s p, check_password_hash (generate_password_hash s p) p = true) ->
  username u <> "" -> password <> "" ->
  Forall (fun x => username x <> username u) before ->
  verify_password check_password_hash
    (before ++ set_password generate_password_hash u salt password :: after)
    (username u) password = true /\
  user_id (set_password generate_password_hash u salt password) = user_id u /\
  username (set_password generate_password_hash u salt password) = username u.
Proof.
  intros Hhash Hn Hp Hbefore. split; [|now split].
  unfold verify_password.
  apply truthy_nonempty in Hn, Hp. rewrite Hn, Hp. simpl.
  assert (Hq : query_first
                 (before ++ set_password generate_password_hash u salt password
                    :: after) (username u)
               = Some (set_password generate_password_hash u salt password)).
  { apply query_first_spec. exists before, after. repeat split; auto. }
  rewrite Hq. unfold check_password. simpl. now rewrite Hhash.
Qed.

Lemma set_password_then_verify_witness :
  verify_password plain_check
    ([MkUser 1 "alice" "old"]
       ++ set_password plain_hash (MkUser 2 "bob" "") "salt" "secret" :: [])
    "bob" "secret" = true /\
  user_id (set_password plain_hash (MkUser 2 "bob" "") "salt" "secret") = 2%Z /\
  username (set_password plain_hash (MkUser 2 "bob" "") "salt" "secret") = "bob".
Proof.
  apply (set_password_then_verify plain_hash plain_check
           [MkUser 1 "alice" "old"] [] (MkUser 2 "bob" "") "salt" "secret").
  - intros s p. apply String.eqb_refl.
  - discriminate.
  - discriminate.
  - repeat constructor. discriminate.
Defined.

(** ** What an exhausted call has tried, and what a call skips *)

Lemma marked_text_nonempty (marker text : string) :
  marker <> "" -> contains marker text = true -> truthy text = true.
Proof.
  intros Hm Hc. destruct text as [|a text]; [|reflexivity].
  rewrite contains_unfold in Hc. destruct marker; [congruence | discriminate Hc].
Qed.

Lemma elem_tried_rejected (marker : string) (url : string)
    (elems : list option_elem) (l : locals) (r : res locals)
    (evs : list event) :
  marker <> "" ->
  elem_trace (PyStr marker) url elems l r evs ->
  forall l', r = Val l' -> truthy (content l') = false ->
  forall c, In (Select c) evs -> In (Rejected c) evs.
Proof.
  intros Hm H. elem_trace_cases H; intros l' Hr Hfalse c Hc;
    try discriminate Hr.
  - destruct Hc.
  - destruct Hc as [Hc|Hc]; [discriminate|]. right. eauto.
  - injection Hr as <-. simpl in Hfalse.
    apply verification_condition_true in Hver as (m & [= <-] & Hver).
    rewrite (marked_text_nonempty _ _ Hm Hver) in Hfalse. discriminate Hfalse.
  - destruct Hc as [[= <-]|[Hc|Hc]]; [simpl; auto | discriminate |].
    right. right. eauto.
Qed.

Lemma attempt_tried_rejected (marker : string) (w : world) (url : string)
    (attempts : list nat) (l : locals) (r : res locals) (evs : list event) :
  marker <> "" ->
  attempt_trace (PyStr marker) w url attempts l r evs ->
  forall l', r = Val l' -> truthy (content l') = false ->
  forall c, In (Select c) evs -> In (Rejected c) evs.
Proof.
  intros Hm H. attempt_trace_cases H; intros l' Hr Hfalse c Hc;
    try discriminate Hr.
  - destruct Hc.
  - injection Hr as <-. congruence.
  - apply in_round in Hc; eauto.
    apply in_app_iff. right. apply in_app_iff.
    destruct Hc as [Hc|Hc].
    + left. exact (elem_tried_rejected _ _ _ _ _ _ Hm Hinner l1 eq_refl Ht c Hc).
    + right. exact (IH l' Hr Hfalse c Hc).
Qed.

(** X20: with a non-empty [str] marker, a call that returns the empty text
    has rejected every endpoint it selected: each of them was added to the
    blacklist that the call then saved. *)
Theorem exhausted_call_rejected_all_it_tried
    (marker : string) (w : world) (url : string) (st : store)
    (σ' : state) (c : string) :
  marker <> "" ->
  fetch_content_through_proxy (PyStr marker) w url (boot st) = (Val "", σ') ->
  In (Select c) (trace σ') ->
  In (Rejected c) (trace σ').
Proof.
  intros Hm Hout Hc.
  destruct (fetch_trace_cases (PyStr marker) w url st)
    as [(e & _ & Hrun)|[(e & _ & _ & Hrun)
       |(loaded & r & evs & _ & _ & Htrace & Hrun)]];
    rewrite Hrun in Hout; try discriminate Hout.
  assert (Hσ : σ' = snd (epilogue st r evs)) by now rewrite Hout.
  rewrite Hσ in Hc |- *.
  apply in_epilogue in Hc; eauto. apply in_epilogue; eauto.
  clear Hσ.
  unfold epilogue in Hout. destruct r as [l|e]; [|discriminate Hout].
  apply (attempt_tried_rejected _ _ _ _ _ _ _ Hm Htrace l eq_refl); [|exact Hc].
  destruct (truthy (content l)) eqn:Ht; [|reflexivity].
  injection Hout as Hcont _. rewrite Hcont in Ht. discriminate Ht.
Qed.

Lemma exhausted_call_rejected_all_it_tried_witness :
  In (Rejected "r2")
     (trace (snd (fetch_content_through_proxy (PyStr "PAGE-OK") no_relay_works
                    "https://example.com" (boot no_file)))).
Proof.
  apply (exhausted_call_rejected_all_it_tried "PAGE-OK" no_relay_works
           "https://example.com" no_file).
  - discriminate.
  - vm_compute. reflexivity.
  - vm_compute. tauto.
Defined.

Lemma skips_known_mono (t : list event) :
  forall K K' : string -> Prop,
    (forall x, K x -> K' x) -> skips_known K t -> skips_known K' t.
Proof.
  induction t as [|e t IH]; intros K K' HK; [easy|].
  destruct e; simpl; try (apply IH; exact HK).
  - intros [Hc Ht]. split; [now apply HK | now apply (IH K)].
  - apply IH. intros x [Hx|Hx]; auto.
Qed.

Lemma skips_known_app (a b : list event) :
  forall K : string -> Prop,
    skips_known K a ->
    skips_known (fun x => K x \/ In (Rejected x) a) b ->
    skips_known K (a ++ b).
Proof.
  induction a as [|e a IH]; intros K Ha Hb.
  - simpl. eapply skips_known_mono; [|exact Hb]. simpl. tauto.
  - destruct e; simpl in *;
      try (apply IH; [exact Ha|];
           eapply skips_known_mono; [|exact Hb]; simpl;
           intros x [Hx|[Hx|Hx]]; auto; discriminate Hx).
    + destruct Ha as [Hc Ha]. split; [exact Hc|]. apply IH; [exact Ha|].
      eapply skips_known_mono; [|exact Hb]. simpl.
      intros x [Hx|[Hx|Hx]]; auto. discriminate Hx.
    + apply IH; [exact Ha|].
      eapply skips_known_mono; [|exact Hb]. simpl.
      intros x [Hx|[[= ->]|Hx]]; auto.
Qed.

Lemma skips_known_split (t1 t2 : list event) (c : string) :
  forall K : string -> Prop,
    skips_known K (t1 ++ Skip c :: t2) -> K c \/ In (Rejected c) t1.
Proof.
  induction t1 as [|e t1 IH]; intros K H.
  - simpl in H. left. exact (proj1 H).
  - destruct e; simpl in H;
      try (destruct (IH K H) as [Hk|Hk]; [now left | right; now right]).
    + destruct H as [_ H].
      destruct (IH K H) as [Hk|Hk]; [now left | right; now right].
    + destruct (IH _ H) as [[->|Hk]|Hk];
        [right; now left | now left | right; now right].
Qed.

Lemma elem_skips_known (v : pyobj) (url : string)
    (elems : list option_elem) (l : locals) (r : res locals)
    (evs : list event) :
  elem_trace v url elems l r evs ->
  forall K : string -> Prop,
    (forall x, listed (bad_servers l) x -> K x) -> skips_known K evs.
Proof.
  intros H. elem_trace_cases H; intros K HK; simpl; try exact I.
  - split; [apply HK; exact Hin | now apply IH].
  - apply IH. simpl. intros x Hx.
    destruct (listed_setitem_only _ _ _ _ Hset Hx) as [->|Hx']; auto.
Qed.

Lemma skips_known_head (consent : bool) (n : nat) (t : list event)
    (K : string -> Prop) :
  skips_known K t -> skips_known K (round_head consent n ++ t).
Proof. now destruct consent. Qed.

Lemma attempt_skips_known (v : pyobj) (w : world) (url : string)
    (attempts : list nat) (l : locals) (r : res locals) (evs : list event) :
  attempt_trace v w url attempts l r evs ->
  forall K : string -> Prop,
    (forall x, listed (bad_servers l) x -> K x) -> skips_known K evs.
Proof.
  intros H. attempt_trace_cases H; intros K HK.
  - exact I.
  - exact I.
  - now destruct consent.
  - apply skips_known_head. exact (elem_skips_known _ _ _ _ _ _ Hinner K HK).
  - apply skips_known_head. exact (elem_skips_known _ _ _ _ _ _ Hinner K HK).
  - apply skips_known_head. apply skips_known_app.
    + exact (elem_skips_known _ _ _ _ _ _ Hinner K HK).
    + apply IH. intros x Hx.
      destruct (elem_listed_only _ _ _ _ _ _ Hinner l1 x eq_refl Hx) as [Hl|Hr];
        auto.
Qed.

(** X21: an endpoint is skipped only when it is known bad at that point:
    listed in the blacklist loaded at the start of the call, or rejected
    earlier in the same call. *)
Theorem skipped_endpoint_was_known_bad
    (v : pyobj) (w : world) (url : string) (st : store) (loaded : json)
    (before after : list event) (c : string) :
  load_bad_servers (boot st) = (Val loaded, boot st) ->
  trace (snd (fetch_content_through_proxy v w url (boot st)))
    = before ++ Skip c :: after ->
  listed loaded c \/ In (Rejected c) before.
Proof.
  intros Hl Htr. apply load_from_boot in Hl.
  apply (skips_known_split before after c (listed loaded)). rewrite <- Htr.
  destruct (fetch_trace_cases v w url st)
    as [(e & _ & Hrun)|[(e & _ & _ & Hrun)
       |(ld & r & evs & _ & Hload & Htrace & Hrun)]];
    rewrite Hrun.
  - exact I.
  - exact I.
  - assert (ld = loaded) as -> by congruence.
    destruct (epilogue_trace st r evs) as (tail & -> & Htail).
    simpl. apply skips_known_app.
    + apply (attempt_skips_known _ _ _ _ _ _ _ Htrace). auto.
    + destruct Htail as [->|(b & ->)]; exact I.
Qed.

Lemma skipped_endpoint_was_known_bad_witness :
  listed (JDict ∅) "r1" \/
  In (Rejected "r1") [Launch; Get; Consent; Found 1; Select "r1"; Rejected "r1";
                      Get; Consent; Found 2].
Proof.
  apply (skipped_endpoint_was_known_bad (PyStr "PAGE-OK") relay_appears_later
           "https://example.com" no_file (JDict ∅)
           [Launch; Get; Consent; Found 1; Select "r1"; Rejected "r1";
            Get; Consent; Found 2]
           [Select "r2"; Quit] "r1"); reflexivity.
Defined.

(** ** What an exhausted call leaves in the file *)

Lemma elem_selected_outcome (v : pyobj) (url : string)
    (elems : list option_elem) (l : locals) (r : res locals)
    (evs : list event) :
  elem_trace v url elems l r evs ->
  forall l' c, r = Val l' -> In (Select c) evs ->
  exists elem text,
    In elem elems /\ data_value elem = Val c /\
    after_submit elem url = Rendered text /\
    (verification_condition v text = Val false /\ listed (bad_servers l') c \/
     verification_condition v text = Val true /\ content l' = text).
Proof.
  intros H. elem_trace_cases H; intros l' c Hr Hc; try discriminate Hr.
  - destruct Hc.
  - destruct Hc as [Hc|Hc]; [discriminate|].
    destruct (IH l' c Hr Hc) as (elem' & text' & Hin' & Hrest).
    exists elem', text'. split; [now right | exact Hrest].
  - injection Hr as <-. destruct Hc as [[= <-]|[]].
    exists elem, text.
    split; [now left|]. split; [exact Hd|]. split; [exact Hsub|].
    right. now split.
  - pose proof (elem_trace_post _ _ _ _ _ _ Hlater) as Hpost. subst r.
    destruct (ep_locals _ _ _ _ _ Hpost) as (Hmono & _ & _). simpl in Hmono.
    destruct Hc as [[= <-]|[Hc|Hc]]; [|discriminate|].
    + exists elem, text.
      split; [now left|]. split; [exact Hd|]. split; [exact Hsub|].
      left. split; [exact Hver|].
      apply Hmono. eapply listed_setitem_same; eauto.
    + destruct (IH l' c eq_refl Hc) as (elem' & text' & Hin' & Hrest).
      exists elem', text'. split; [now right | exact Hrest].
Qed.

Lemma attempt_selected_outcome (v : pyobj) (w : world) (url : string)
    (attempts : list nat) (l : locals) (r : res locals) (evs : list event) :
  attempt_trace v w url attempts l r evs ->
  forall l' c, r = Val l' -> truthy (content l') = false ->
  In (Select c) evs ->
  exists elem text,
    offered w attempts elem /\ data_value elem = Val c /\
    after_submit elem url = Rendered text /\
    (verification_condition v text = Val false /\ listed (bad_servers l') c \/
     verification_condition v text = Val true /\ text = "").
Proof.
  intros H. attempt_trace_cases H; intros l' c Hr Hfalse Hc;
    try discriminate Hr.
  - destruct Hc.
  - injection Hr as <-. congruence.
  - pose proof (attempt_trace_post _ _ _ _ _ _ _ Hmore) as Hpost. subst r.
    destruct (ap_locals _ _ _ _ _ Hpost) as (Hmono & _ & _).
    apply in_round in Hc as [Hc|Hc]; eauto.
    + destruct (elem_selected_outcome _ _ _ _ _ _ Hinner l1 c eq_refl Hc)
        as (elem & text & Hin & Hd & Hsub & Hout).
      exists elem, text. repeat split; eauto using offered_here.
      destruct Hout as [[Hver Hl]|[Hver Htext]].
      * left. split; [exact Hver | now apply Hmono].
      * right. split; [exact Hver|]. rewrite <- Htext.
        destruct (content l1); [reflexivity | discriminate Ht].
    + destruct (IH l' c eq_refl Hfalse Hc) as (elem & text & Hoff & Hrest).
      exists elem, text. split; [eauto using offered_later | exact Hrest].
Qed.

(** C2: when the call ends in the exhausted state (the empty text is
    returned), the backing file afterwards holds a blacklist that lists every
    endpoint of the blacklist loaded at the start and every endpoint that was
    attempted and failed verification during the call: every endpoint
    recorded as rejected, and every endpoint that was selected, the page it
    rendered for the target URL then having failed the test (the one other
    case of a selection in such a call is an empty page that passed it). *)
Theorem exhausted_call_saves_grown_blacklist
    (v : pyobj) (w : world) (url : string) (st : store) (σ' : state) :
  fetch_content_through_proxy v w url (boot st) = (Val "", σ') ->
  exists final,
    backing (fs σ') = Holds (Json final) /\
    (forall loaded c,
        load_bad_servers (boot st) = (Val loaded, boot st) ->
        listed loaded c -> listed final c) /\
    (forall c, In (Rejected c) (trace σ') -> listed final c) /\
    (forall c, In (Select c) (trace σ') ->
       exists attempt consent elems elem text,
         attempt < MAX_ROUNDS /\ proxyium w attempt = Loaded consent elems /\
         In elem elems /\ data_value elem = Val c /\
         after_submit elem url = Rendered text /\
         (verification_condition v text = Val false /\ listed final c \/
          verification_condition v text = Val true /\ text = "")).
Proof.
  intros Hout.
  destruct (fetch_trace_cases v w url st)
    as [(e & _ & Hrun)|[(e & _ & _ & Hrun)
       |(ld & r & evs & _ & Hload & Htrace & Hrun)]];
    rewrite Hrun in Hout; try discriminate Hout.
  assert (Hin : forall e, (exists c, e = Select c \/ e = Rejected c) ->
            In e (trace σ') -> In e evs).
  { intros e He Hc. replace σ' with (snd (epilogue st r evs)) in Hc
      by now rewrite Hout.
    now apply in_epilogue in Hc. }
  pose proof (attempt_trace_post _ _ _ _ _ _ _ Htrace) as Hpost.
  unfold epilogue in Hout. destruct r as [l|e]; [|discriminate Hout].
  destruct (truthy (content l)) eqn:Ht.
  { injection Hout as Hc _. rewrite Hc in Ht. discriminate Ht. }
  destruct (writable st); [|discriminate Hout].
  injection Hout as _ <-. exists (bad_servers l). split; [reflexivity|].
  destruct (ap_locals _ _ _ _ _ Hpost) as (Hmono & Hrej & _).
  repeat split.
  - intros loaded c Hl. apply load_from_boot in Hl.
    assert (loaded = ld) as -> by congruence. apply Hmono.
  - intros c Hc. apply Hrej. apply Hin; eauto.
  - intros c Hc. apply Hin in Hc; eauto.
    destruct (attempt_selected_outcome _ _ _ _ _ _ _ Htrace l c eq_refl Ht Hc)
      as (elem & text & Hoff & Hd & Hsub & Houtcome).
    destruct (offered_in_rounds _ _ Hoff)
      as (attempt & consent & elems & Hlt & Hpage & Helem).
    exists attempt, consent, elems, elem, text. repeat split; auto.
Qed.

Lemma exhausted_call_saves_grown_blacklist_witness :
  backing (fs (snd (fetch_content_through_proxy (PyStr "PAGE-OK")
                      no_relay_works "https://example.com" (boot no_file))))
    = Holds (Json (JDict (<["r2" := JInt 1]> (<["r1" := JInt 1]> ∅)))) /\
  listed (JDict (<["r2" := JInt 1]> (<["r1" := JInt 1]> ∅))) "r1" /\
  listed (JDict (<["r2" := JInt 1]> (<["r1" := JInt 1]> ∅))) "r2".
Proof.
  destruct (exhausted_call_saves_grown_blacklist (PyStr "PAGE-OK")
              no_relay_works "https://example.com" no_file
              (snd (fetch_content_through_proxy (PyStr "PAGE-OK")
                      no_relay_works "https://example.com" (boot no_file))))
    as (final & Hfile & _ & _ & Hsel).
  { vm_compute. reflexivity. }
  assert (Hfinal : final = JDict (<["r2" := JInt 1]> (<["r1" := JInt 1]> ∅))).
  { vm_compute in Hfile. injection Hfile as <-. vm_compute. reflexivity. }
  split; [rewrite Hfile, Hfinal; reflexivity|].
  rewrite <- Hfinal. split.
  - destruct (Hsel "r1") as (_ & _ & _ & _ & text & _ & _ & _ & _ & _ & Hout).
    { vm_compute. tauto. }
    destruct Hout as [[_ Hl]|[Hver ->]]; [exact Hl | discriminate Hver].
  - destruct (Hsel "r2") as (_ & _ & _ & _ & text & _ & _ & _ & _ & _ & Hout).
    { vm_compute. tauto. }
    destruct Hout as [[_ Hl]|[Hver ->]]; [exact Hl | discriminate Hver].
Defined.
